(** * Nemesis: the copyright scanner of [internal/scanner/scanner.go]

    A shallow embedding of the scanner's file classifier, line cleaner,
    line normaliser, notice extractor and directory aggregator, and the
    properties of the specification that concern them.

    Modelling conventions.
    - A Go [string] is the sequence of runes that ranging over it yields
      (for valid UTF-8 text exactly its code points; Go decodes a stray
      byte as U+FFFD).  Runes and bytes are numbers in [N].
    - [len(s)], a byte count, is the sum of the UTF-8 widths of the runes.
    - The tables of package [unicode] above ASCII belong to the Go
      distribution, not to this repository: they are a parameter
      ([UnicodeTables]).  The ASCII part is written out.
    - File contents are bytes; text is obtained from them by UTF-8
      decoding ([utf8_decode]). *)

From Stdlib Require Import List Bool Arith NArith ZArith Lia String Ascii.
Import ListNotations.

Local Open Scope N_scope.
Local Open Scope list_scope.

Set Implicit Arguments.

(** ** Runes and strings *)

Definition rune := N.
Definition gostring := list rune.

(** An ASCII literal as a Go string. *)
Definition str (s : string) : gostring :=
  map N_of_ascii (list_ascii_of_string s).

Fixpoint eqb_str (a b : gostring) : bool :=
  match a, b with
  | [], [] => true
  | x :: a', y :: b' => (x =? y) && eqb_str a' b'
  | _, _ => false
  end.

(** [utf8.RuneLen] for the runes a string can hold. *)
Definition RuneLen (r : rune) : nat :=
  if r <? 0x80 then 1%nat
  else if r <? 0x800 then 2%nat
  else if r <? 0x10000 then 3%nat
  else 4%nat.

(** [len(s)]: the number of bytes of [s]. *)
Fixpoint len (s : gostring) : nat :=
  match s with
  | [] => 0%nat
  | r :: t => (RuneLen r + len t)%nat
  end.

(** ** Package [unicode] *)

Module unicode.

(** What the tables of the Go distribution say above ASCII. *)
Class UnicodeTables := {
  toLowerTable : rune -> rune;
  punctTable : rune -> bool;
  symbolTable : rune -> bool
}.

Definition MaxASCII : rune := 0x7F.

(** [unicode.IsSpace]: the Latin-1 switch and the [White_Space] table. *)
Definition IsSpace (r : rune) : bool :=
  ((0x09 <=? r) && (r <=? 0x0D)) || (r =? 0x20) || (r =? 0x85) || (r =? 0xA0)
  || (r =? 0x1680) || ((0x2000 <=? r) && (r <=? 0x200A))
  || (r =? 0x2028) || (r =? 0x2029) || (r =? 0x202F) || (r =? 0x205F)
  || (r =? 0x3000).

(** ASCII punctuation (the categories P): 0x21-0x23, 0x25-0x2A,
    0x2C-0x2F, colon, semicolon, question mark, at sign, 0x5B-0x5D,
    underscore and the two braces. *)
Definition asciiPunct (r : rune) : bool :=
  ((0x21 <=? r) && (r <=? 0x23)) || ((0x25 <=? r) && (r <=? 0x2A))
  || ((0x2C <=? r) && (r <=? 0x2F)) || (r =? 0x3A) || (r =? 0x3B)
  || (r =? 0x3F) || (r =? 0x40) || ((0x5B <=? r) && (r <=? 0x5D))
  || (r =? 0x5F) || (r =? 0x7B) || (r =? 0x7D).

(** ASCII symbols (the categories S): dollar, plus, less-than, equals,
    greater-than, circumflex, backquote, vertical bar and tilde. *)
Definition asciiSymbol (r : rune) : bool :=
  (r =? 0x24) || (r =? 0x2B) || ((0x3C <=? r) && (r <=? 0x3E))
  || (r =? 0x5E) || (r =? 0x60) || (r =? 0x7C) || (r =? 0x7E).

Section Tables.
Context {U : UnicodeTables}.

Definition ToLower (r : rune) : rune :=
  if r <=? MaxASCII then
    if (0x41 <=? r) && (r <=? 0x5A) then r + 0x20 else r
  else toLowerTable r.

Definition IsPunct (r : rune) : bool :=
  if r <=? MaxASCII then asciiPunct r else punctTable r.

Definition IsSymbol (r : rune) : bool :=
  if r <=? MaxASCII then asciiSymbol r else symbolTable r.
End Tables.

(** The tables restricted to ASCII: nothing above it has a case, is
    punctuation or is a symbol. *)
Definition asciiOnly : UnicodeTables :=
  {| toLowerTable := fun r => r;
     punctTable := fun _ => false;
     symbolTable := fun _ => false |}.

End unicode.

(** ** Package [strings] *)

Module strings.
Import unicode.

Fixpoint HasPrefix (s prefix : gostring) {struct prefix} : bool :=
  match prefix, s with
  | [], _ => true
  | p :: prefix', c :: s' => (c =? p) && HasPrefix s' prefix'
  | _ :: _, [] => false
  end.

Definition HasSuffix (s suffix : gostring) : bool :=
  HasPrefix (rev s) (rev suffix).

Fixpoint Contains (s substr : gostring) : bool :=
  HasPrefix s substr
  || match s with
     | [] => false
     | _ :: s' => Contains s' substr
     end.

Fixpoint trimLeft (s : gostring) : gostring :=
  match s with
  | c :: s' => if IsSpace c then trimLeft s' else s
  | [] => []
  end.

Definition TrimSpace (s : gostring) : gostring :=
  rev (trimLeft (rev (trimLeft s))).

(** [strings.Fields]: [word] is the field being read, most recent rune
    first. *)
Fixpoint fieldsFrom (word : gostring) (s : gostring) : list gostring :=
  match s with
  | [] => match word with [] => [] | _ => [rev word] end
  | c :: s' =>
    if IsSpace c then
      match word with
      | [] => fieldsFrom [] s'
      | _ => rev word :: fieldsFrom [] s'
      end
    else fieldsFrom (c :: word) s'
  end.

Definition Fields (s : gostring) : list gostring := fieldsFrom [] s.

Fixpoint Join (elems : list gostring) (sep : gostring) : gostring :=
  match elems with
  | [] => []
  | [e] => e
  | e :: rest => e ++ sep ++ Join rest sep
  end.

(** [strings.ReplaceAll s old new] for a non-empty [old]: matches are
    taken left to right and do not overlap; [skip] counts the runes of
    the current match still to be passed over. *)
Fixpoint replaceFrom (skip : nat) (s old new : gostring) : gostring :=
  match s with
  | [] => []
  | c :: s' =>
    match skip with
    | S k => replaceFrom k s' old new
    | O =>
      if HasPrefix s old
      then new ++ replaceFrom (List.length old - 1) s' old new
      else c :: replaceFrom 0 s' old new
    end
  end.

Definition ReplaceAll (s old new : gostring) : gostring :=
  replaceFrom 0 s old new.

(** [strings.TrimSuffix]. *)
Definition TrimSuffix (s suffix : gostring) : gostring :=
  if HasSuffix s suffix
  then firstn (List.length s - List.length suffix) s
  else s.

(** [strings.Split s sep] for a separator of one rune. *)
Fixpoint Split (s : gostring) (sep : rune) : list gostring :=
  match s with
  | [] => [[]]
  | c :: s' =>
    if c =? sep then [] :: Split s' sep
    else match Split s' sep with
         | piece :: rest => (c :: piece) :: rest
         | [] => [[c]]
         end
  end.

Section Tables.
Context {U : UnicodeTables}.

(** [strings.Map]; no mapping used here returns a negative rune. *)
Definition Map (mapping : rune -> rune) (s : gostring) : gostring :=
  map mapping s.

Definition ToLower (s : gostring) : gostring := Map unicode.ToLower s.
End Tables.

End strings.

(** ** Package [filepath] *)

Module filepath.

(** The loop of [filepath.Ext], from the end of the path backwards:
    [before] is the path up to the rune looked at, last rune first, and
    [after] is what follows it.  The separator is the slash. *)
Fixpoint extFrom (before after : gostring) : gostring :=
  match before with
  | [] => []
  | c :: before' =>
    if c =? 0x2F then []
    else if c =? 0x2E then c :: after
    else extFrom before' (c :: after)
  end.

Definition Ext (path : gostring) : gostring := extFrom (rev path) [].

End filepath.

(** ** Package [strconv] *)

Module strconv.

Definition isDigit (c : rune) : bool := (0x30 <=? c) && (c <=? 0x39).

Fixpoint digitsValue (acc : Z) (s : gostring) : option Z :=
  match s with
  | [] => Some acc
  | c :: s' =>
    if isDigit c then digitsValue (acc * 10 + (Z.of_N c - 48))%Z s'
    else None
  end.

(** [strconv.Atoi] on a 64-bit platform: an optional sign, at least one
    decimal digit, nothing else; a value that does not fit [int] is an
    error. *)
Definition Atoi (s : gostring) : option Z :=
  let '(neg, body) :=
    match s with
    | 0x2D :: s' => (true, s')
    | 0x2B :: s' => (false, s')
    | _ => (false, s)
    end in
  match body with
  | [] => None
  | _ =>
    match digitsValue 0 body with
    | None => None
    | Some n =>
      let v := if neg then (- n)%Z else n in
      if ((- 2 ^ 63 <=? v) && (v <=? 2 ^ 63 - 1))%Z then Some v else None
    end
  end.

End strconv.

(** ** Files and I/O *)

Definition byte := N.

Definition RuneError : rune := 0xFFFD.

(** The string of one line feed. *)
Definition newline : gostring := [0x0A].

Definition isContinuation (b : byte) : bool := (0x80 <=? b) && (b <=? 0xBF).

(** The range of the second byte of a three-byte and of a four-byte
    sequence ([acceptRanges] of package [utf8]). *)
Definition second3 (b0 b1 : byte) : bool :=
  if b0 =? 0xE0 then (0xA0 <=? b1) && (b1 <=? 0xBF)
  else if b0 =? 0xED then (0x80 <=? b1) && (b1 <=? 0x9F)
  else isContinuation b1.

Definition second4 (b0 b1 : byte) : bool :=
  if b0 =? 0xF0 then (0x90 <=? b1) && (b1 <=? 0xBF)
  else if b0 =? 0xF4 then (0x80 <=? b1) && (b1 <=? 0x8F)
  else isContinuation b1.

(** The runes that ranging over the bytes yields: a byte that starts no
    well-formed sequence is U+FFFD and decoding resumes at the next byte. *)
Fixpoint utf8_decode (bs : list byte) : gostring :=
  match bs with
  | [] => []
  | b0 :: r0 =>
    if b0 <? 0x80 then b0 :: utf8_decode r0
    else
      let invalid := RuneError :: utf8_decode r0 in
      match r0 with
      | [] => invalid
      | b1 :: r1 =>
        if (0xC2 <=? b0) && (b0 <=? 0xDF) then
          if isContinuation b1
          then ((b0 - 0xC0) * 64 + (b1 - 0x80)) :: utf8_decode r1
          else invalid
        else
          match r1 with
          | [] => invalid
          | b2 :: r2 =>
            if (0xE0 <=? b0) && (b0 <=? 0xEF) then
              if second3 b0 b1 && isContinuation b2
              then ((b0 - 0xE0) * 4096 + (b1 - 0x80) * 64 + (b2 - 0x80))
                     :: utf8_decode r2
              else invalid
            else
              match r2 with
              | [] => invalid
              | b3 :: r3 =>
                if (0xF0 <=? b0) && (b0 <=? 0xF4)
                   && second4 b0 b1 && isContinuation b2 && isContinuation b3
                then ((b0 - 0xF0) * 262144 + (b1 - 0x80) * 4096
                      + (b2 - 0x80) * 64 + (b3 - 0x80)) :: utf8_decode r3
                else invalid
              end
          end
      end
  end.

(** A file as the scanner meets it.  [Unopenable]: [os.Open] fails.
    [Opened data fault]: the file opens and holds [data]; with
    [fault = Some k] the byte at offset [k] cannot be read, and a read
    that reaches it fails with an error that is not [io.EOF]. *)
Inductive File :=
| Unopenable
| Opened (data : list byte) (fault : option nat).

Inductive error := OpenError | ReadError | WalkError.

Inductive result (A : Type) :=
| Ok (a : A)
| Err (e : error).
Arguments Ok {A} a.
Arguments Err {A} e.

Definition reaches (fault : option nat) (n : nat) : bool :=
  match fault with
  | Some k => (k <? n)%nat
  | None => false
  end.

(** [os.Open] then one [file.Read(buf)] with [len(buf) = size]: the
    bytes delivered ([buf[:n]]), as many as asked for or as the file has;
    [io.EOF] (a read at the end of the data) delivers none and is no
    error here. *)
Definition openAndRead (f : File) (size : nat) : result (list byte) :=
  match f with
  | Unopenable => Err OpenError
  | Opened data fault =>
    let sample := firstn size data in
    if reaches fault (List.length sample) then Err ReadError else Ok sample
  end.

(** [os.Open] then [reader.ReadString('\n')] until [io.EOF]: the lines
    delivered with a nil error, each with its newline, and the last piece,
    delivered together with [io.EOF].  An error other than [io.EOF] ends
    the reading; what was read before it is of no use to the caller. *)
Fixpoint readStrings (s : gostring) : list gostring * gostring :=
  match s with
  | [] => ([], [])
  | c :: s' =>
    let '(lines, last) := readStrings s' in
    if c =? 0x0A then ([c] :: lines, last)
    else
      match lines with
      | [] => ([], c :: last)
      | l :: lines' => ((c :: l) :: lines', last)
      end
  end.

(** ** The scanner *)

Section Scanner.
Context {U : unicode.UnicodeTables}.

(** *** File classifier *)

Definition isAllowedControlChar (b : byte) : bool :=
  (b =? 0x0A) || (b =? 0x0D) || (b =? 0x09).

Definition isTextFile (path : File) : bool :=
  match openAndRead path 512 with
  | Err _ => false
  | Ok buf =>
    if existsb (fun b => b =? 0) buf then false
    else if existsb (fun b => (b <? 32) && negb (isAllowedControlChar b)) buf
         then false
         else true
  end.

(** *** Line cleaner *)

Definition prefixes : list gostring :=
  map str ["//"; "/*"; "*/"; "#"; "*"; "+"; "-"; "<!--"; "-->"]%string.

(** One turn of the loop of [cleanLine]. *)
Definition cleanOnce (trimmed : gostring) : gostring :=
  let trimmed := strings.TrimSpace trimmed in
  let trimmed :=
    fold_left (fun t prefix => strings.ReplaceAll t prefix (str " "))
              prefixes trimmed in
  strings.Join (strings.Fields trimmed) (str " ").

(** The loop of [cleanLine]; [None] when [turns] turns do not reach the
    [break]. *)
Fixpoint cleanLoop (turns : nat) (trimmed : gostring) : option gostring :=
  match turns with
  | O => None
  | S turns' =>
    let original := trimmed in
    let trimmed := cleanOnce trimmed in
    if eqb_str original trimmed then Some trimmed
    else cleanLoop turns' trimmed
  end.

(** *** Line normaliser *)

Definition prefixWords : list gostring :=
  map str ["copyright"; "c"; "by"; "corp"; "corporation"; "inc";
           "affiliates"; "all"; "rights"; "reserved"; "and"; "the";
           "team"; "authors"; "license"]%string.

Definition isPrefixWord (field : gostring) : bool :=
  existsb (eqb_str field) prefixWords.

Definition isYear (field : gostring) : bool :=
  (len field =? 4)%nat
  && match strconv.Atoi field with Some _ => true | None => false end.

(** [int] arithmetic wraps around at 64 bits. *)
Definition wrap64 (z : Z) : Z := ((z + 2 ^ 63) mod 2 ^ 64 - 2 ^ 63)%Z.

(** The test for a year range at [fields[i]], given [fields[i+1]] and
    [fields[i+2]]. *)
Definition isYearRange (field sep field2 : gostring) : bool :=
  (len field =? 4)%nat
  && match strconv.Atoi field with
     | Some year1 =>
       (eqb_str sep (str "-") || eqb_str sep (str "to"))
       && match strconv.Atoi field2 with
          | Some year2 =>
            (year2 >? year1)%Z && (wrap64 (year2 - year1) <=? 100)%Z
          | None => false
          end
     | None => false
     end.

(** The loop over [fields], from index [i] on: the argument is
    [fields[i:]] and the result is what the loop appends to
    [cleanFields]. *)
Fixpoint cleanFieldsFrom (fields : list gostring) : list gostring :=
  match fields with
  | [] => []
  | field :: rest =>
    if isPrefixWord field then cleanFieldsFrom rest
    else if isYear field then cleanFieldsFrom rest
    else
      match rest with
      | sep :: field2 :: rest' =>
        if isYearRange field sep field2 then cleanFieldsFrom rest'
        else field :: cleanFieldsFrom rest
      | _ => field :: cleanFieldsFrom rest
      end
  end.

Definition normalizeForComparison (s : gostring) : gostring :=
  let s := strings.ToLower s in
  let s :=
    strings.Map (fun r => if unicode.IsPunct r || unicode.IsSymbol r
                          then 0x20 else unicode.ToLower r) s in
  let fields := strings.Fields s in
  strings.Join (cleanFieldsFrom fields) (str " ").

(** *** Notice extractor *)

(** Every pass of the loop of [cleanLine] after the first leaves the
    line as it is ([cleanLoop_converges] below), so two turns reach the
    [break]. *)
Definition cleanLine (line : gostring) : gostring :=
  match cleanLoop 2 line with
  | Some trimmed => trimmed
  | None => line
  end.

Definition codeSignals : list gostring :=
  map str ["func "; "type "; "var "; "const "; "package "; "import ";
           "return "; ":="; "if "; "test"; "echo"; "find_"; "append";
           "error:"; "grep"; "egrep"; "while "; "read "; "|"; "grant of";
           "license"; "permission"; "permitted"; "distribute"; "notice";
           "provided"; "conditions"; "subject to"; "you may"; "you must";
           "shall"; "retain"; "reproduce"]%string.

(** The first condition on [lowercaseLine]: a code or test line. *)
Definition isCodeLine (lowercaseLine : gostring) : bool :=
  existsb (strings.Contains lowercaseLine) codeSignals.

Definition copyrightSign : gostring := [0xA9].

Definition falseFriends : list gostring :=
  map str ["copyrightadder"; "copyrighttext"; "addcopyright";
           "extractcopyright"; "hascopyright"; "copyright.sh";
           "copyright notice"; "copyright owner"; "copyright holder";
           "above copyright"; "retain"; "reproduce"]%string.

(** The second condition: the line holds a copyright statement. *)
Definition isCopyrightLine (lowercaseLine trimmedLine : gostring) : bool :=
  (strings.Contains lowercaseLine (str "copyright")
   || strings.Contains lowercaseLine copyrightSign
   || strings.Contains lowercaseLine (str "(c)")
   || strings.Contains trimmedLine (str "(C)"))
  && forallb (fun w => negb (strings.Contains lowercaseLine w)) falseFriends.

(** The second condition as the claim on its case-sensitive clause words
    it: the same test without the clause for [(C)] on the untouched
    line. *)
Definition isCopyrightLine_lowercase_only (lowercaseLine : gostring) : bool :=
  (strings.Contains lowercaseLine (str "copyright")
   || strings.Contains lowercaseLine copyrightSign
   || strings.Contains lowercaseLine (str "(c)"))
  && forallb (fun w => negb (strings.Contains lowercaseLine w)) falseFriends.

(** The local variables of [extractCopyright]; [seenCopyrights] is a
    [map[string]bool] used as a set. *)
Record Extractor := {
  copyright : gostring;
  seenCopyrights : list gostring;
  currentCopyright : gostring;
  isCollectingCopyright : bool
}.

Definition newExtractor : Extractor :=
  {| copyright := []; seenCopyrights := [];
     currentCopyright := []; isCollectingCopyright := false |}.

(** Clean the collected text, and write it out unless its normal form
    was seen. *)
Definition emit (x : Extractor) : Extractor :=
  let cleanedCopyright := cleanLine (currentCopyright x) in
  let normalizedCopyright := normalizeForComparison cleanedCopyright in
  if existsb (eqb_str normalizedCopyright) (seenCopyrights x) then x
  else
    {| copyright := copyright x ++ cleanedCopyright ++ newline;
       seenCopyrights := normalizedCopyright :: seenCopyrights x;
       currentCopyright := currentCopyright x;
       isCollectingCopyright := isCollectingCopyright x |}.

Definition reset (x : Extractor) : Extractor :=
  {| copyright := copyright x; seenCopyrights := seenCopyrights x;
     currentCopyright := []; isCollectingCopyright := isCollectingCopyright x |}.

Definition setCollecting (b : bool) (x : Extractor) : Extractor :=
  {| copyright := copyright x; seenCopyrights := seenCopyrights x;
     currentCopyright := currentCopyright x; isCollectingCopyright := b |}.

Definition writeCurrent (s : gostring) (x : Extractor) : Extractor :=
  {| copyright := copyright x; seenCopyrights := seenCopyrights x;
     currentCopyright := currentCopyright x ++ s;
     isCollectingCopyright := isCollectingCopyright x |}.

(** What an empty line and a code line do: the collected notice, if
    any, is written out and collection stops. *)
Definition endOfNotice (x : Extractor) : Extractor :=
  if isCollectingCopyright x then
    setCollecting false
      (if (0 <? len (currentCopyright x))%nat then reset (emit x) else x)
  else x.

(** One turn of the reading loop on [line], [atEOF] telling whether
    [ReadString] returned [io.EOF] with it; the loop ends after the turn
    exactly when [atEOF]. *)
Definition turn (atEOF : bool) (x : Extractor) (line : gostring) : Extractor :=
  let trimmedLine := strings.TrimSpace line in
  if eqb_str trimmedLine [] then endOfNotice x
  else
    let lowercaseLine := strings.ToLower trimmedLine in
    if isCodeLine lowercaseLine then endOfNotice x
    else
      let x :=
        if isCopyrightLine lowercaseLine trimmedLine
        then writeCurrent trimmedLine (setCollecting true x)
        else if isCollectingCopyright x
             then writeCurrent (str " " ++ trimmedLine) x
             else x in
      if atEOF then
        if isCollectingCopyright x && (0 <? len (currentCopyright x))%nat
        then emit x else x
      else x.

(** The reading loop over the text of a file. *)
Definition extractText (text : gostring) : gostring :=
  let '(lines, last) := readStrings text in
  copyright (turn true (fold_left (turn false) lines newExtractor) last).

Definition extractCopyright (filePath : File) : result gostring :=
  match filePath with
  | Unopenable => Err OpenError
  | Opened data fault =>
    if reaches fault (List.length data) then Err ReadError
    else Ok (extractText (utf8_decode data))
  end.

(** *** Directory aggregator *)

(** What [filepath.Walk] hands to its callback, in walk order: an entry
    it could not examine (the callback's [err] is not nil), a directory,
    or a file. *)
Inductive WalkEntry :=
| Failed (path : gostring)
| IsDir (path : gostring)
| IsFile (path : gostring) (file : File).

(** A directory as [ScanDirectory] meets it: what [os.ReadFile] gives
    for a name joined to the directory ([None]: an error), and the
    entries of the walk. *)
Record Directory := {
  ReadFile : gostring -> option (list byte);
  Walk : list WalkEntry
}.

Definition licenseFiles : list gostring :=
  map str ["LICENSE"; "LICENSE.txt"; "LICENSE.md";
           "license"; "license.txt"; "license.md"]%string.

(** The loop over [licenseFiles], from some candidate on:
    [licenseContent] after it. *)
Fixpoint readLicense (dir : Directory) (names : list gostring) : gostring :=
  match names with
  | [] => []
  | licenseFile :: names' =>
    match ReadFile dir licenseFile with
    | Some content => utf8_decode content
    | None => readLicense dir names'
    end
  end.

(** The license file the specification speaks of: the content of the
    first candidate, in order, that can be read. *)
Fixpoint firstReadable (dir : Directory) (names : list gostring)
  : option (list byte) :=
  match names with
  | [] => None
  | licenseFile :: names' =>
    match ReadFile dir licenseFile with
    | Some content => Some content
    | None => firstReadable dir names'
    end
  end.

(** The variables the walk callback closes over, and the messages it
    prints (the paths of the files whose extraction failed). *)
Record Aggregator := {
  resultText : gostring;
  seenInTree : list gostring;
  stdout : list gostring
}.

Definition newAggregator : Aggregator :=
  {| resultText := []; seenInTree := []; stdout := [] |}.

(** The body of the loop over the lines of one file's notices. *)
Definition addNotice (a : Aggregator) (c : gostring) : Aggregator :=
  if negb (eqb_str c []) && negb (existsb (eqb_str c) (seenInTree a)) then
    {| resultText := resultText a ++ c ++ newline;
       seenInTree := c :: seenInTree a;
       stdout := stdout a |}
  else a.

Definition printError (path : gostring) (a : Aggregator) : Aggregator :=
  {| resultText := resultText a; seenInTree := seenInTree a;
     stdout := stdout a ++ [path] |}.

(** The callback given to [filepath.Walk]. *)
Definition walkFn (a : Aggregator) (entry : WalkEntry) : result Aggregator :=
  match entry with
  | Failed _ => Err WalkError
  | IsDir _ => Ok a
  | IsFile path file =>
    if negb (isTextFile file) then Ok a
    else
      match extractCopyright file with
      | Err _ => Ok (printError path a)
      | Ok copyright =>
        if negb (eqb_str copyright []) then
          Ok (fold_left addNotice (strings.Split copyright 0x0A) a)
        else Ok a
      end
  end.

(** [filepath.Walk]: the first error of the callback ends the walk. *)
Fixpoint walk (a : Aggregator) (entries : list WalkEntry) : result Aggregator :=
  match entries with
  | [] => Ok a
  | entry :: entries' =>
    match walkFn a entry with
    | Ok a' => walk a' entries'
    | Err e => Err e
    end
  end.

Definition licenseHeader : gostring :=
  [0x0A] ++ str "License Text:" ++ [0x0A]
  ++ str "----------------------------------------" ++ [0x0A; 0x0A].

(** The report and what was printed on the way. *)
Definition ScanDirectoryLogged (dir : Directory) : result (gostring * list gostring) :=
  let licenseContent := readLicense dir licenseFiles in
  match walk newAggregator (Walk dir) with
  | Err e => Err e
  | Ok a =>
    let result := resultText a in
    let result :=
      if negb (eqb_str licenseContent []) then
        result ++ licenseHeader ++ licenseContent
        ++ (if negb (strings.HasSuffix licenseContent newline)
            then newline else [])
      else result in
    Ok (result, stdout a)
  end.

(** A report that ends with the license section for [licenseContent]:
    the header, the content, and a line feed if the content has none at
    its end. *)
Definition endsWithLicense (report licenseContent : gostring) : Prop :=
  exists notices,
    report = notices ++ licenseHeader ++ licenseContent
             ++ (if strings.HasSuffix licenseContent newline
                 then [] else newline).

Definition ScanDirectory (dir : Directory) : result gostring :=
  match ScanDirectoryLogged dir with
  | Ok (report, _) => Ok report
  | Err e => Err e
  end.

End Scanner.

(** ** The batch driver *)

Section Batch.
Context {U : unicode.UnicodeTables}.

Definition placeholder : gostring := str "{name}".

(** The name of the output file for the subdirectory [name]. *)
Definition outputFileFor (outputPattern name : gostring) : gostring :=
  let outputFile := strings.ReplaceAll outputPattern placeholder name in
  if negb (strings.Contains outputPattern placeholder) then
    let ext := filepath.Ext outputFile in
    let base := strings.TrimSuffix outputFile ext in
    let base :=
      if strings.HasSuffix base (str "_")
      then strings.TrimSuffix base (str "_") else base in
    base ++ str "_" ++ name ++ ext
  else outputFile.

(** The loop over the lines of the prefix: the first line that is
    [Software:] once trimmed is rewritten, and the loop breaks. *)
Fixpoint setSoftware (lines : list gostring) (name : gostring)
  : list gostring :=
  match lines with
  | [] => []
  | line :: rest =>
    if eqb_str (strings.TrimSpace line) (str "Software:")
    then (str "Software: " ++ name) :: rest
    else line :: setSoftware rest name
  end.

(** What is made of the content of [template/prefix.txt]. *)
Definition fillPrefix (prefixContent name : gostring) : gostring :=
  let lines := strings.Split prefixContent 0x0A in
  let lines := setSoftware lines name in
  let prefixContent := strings.Join lines newline in
  if negb (strings.HasSuffix prefixContent newline)
  then prefixContent ++ newline
  else prefixContent.

(** An entry of the root directory, as [os.ReadDir] gives it, and what
    the batch meets when it comes to it: the subdirectory as
    [ScanDirectory] finds it, the text of [template/prefix.txt]
    ([None]: it cannot be read), and whether [os.WriteFile] succeeds on
    the output file. *)
Record DirEntry := {
  Name : gostring;
  IsDirectory : bool;
  subDir : Directory;
  prefixFile : option gostring;
  writable : bool
}.

Inductive batchError :=
| ReadDirFailed
| ScanFailed (name : gostring) (e : error)
| WriteFailed (outputFile : gostring).

(** The text written for an entry whose scan gave [copyrightText]. *)
Definition withPrefix (entry : DirEntry) (copyrightText : gostring) : gostring :=
  match prefixFile entry with
  | Some prefixContent => fillPrefix prefixContent (Name entry) ++ copyrightText
  | None => copyrightText
  end.

(** The loop over the entries; [files] are the files written so far,
    path and text, latest last. *)
Fixpoint scanEntries (outputPattern : gostring) (entries : list DirEntry)
         (files : list (gostring * gostring))
  : list (gostring * gostring) * option batchError :=
  match entries with
  | [] => (files, None)
  | entry :: entries' =>
    if IsDirectory entry then
      let outputFile := outputFileFor outputPattern (Name entry) in
      match ScanDirectory (subDir entry) with
      | Err e => (files, Some (ScanFailed (Name entry) e))
      | Ok copyrightText =>
        let copyrightText := withPrefix entry copyrightText in
        if writable entry
        then scanEntries outputPattern entries'
                         (files ++ [(outputFile, copyrightText)])
        else (files, Some (WriteFailed outputFile))
      end
    else scanEntries outputPattern entries' files
  end.

(** The files written, in order, and the error returned, if any;
    [rootEntries] is what [os.ReadDir(rootDir)] gives ([None]: an
    error). *)
Definition ScanSubDirectories (rootEntries : option (list DirEntry))
           (outputPattern : gostring)
  : list (gostring * gostring) * option batchError :=
  match rootEntries with
  | None => ([], Some ReadDirFailed)
  | Some entries => scanEntries outputPattern entries []
  end.

(** The file [w], path and text, is the one the batch writes for
    [entry]. *)
Definition wroteFor (outputPattern : gostring) (entry : DirEntry)
           (w : gostring * gostring) : Prop :=
  fst w = outputFileFor outputPattern (Name entry)
  /\ exists report,
       ScanDirectory (subDir entry) = Ok report
       /\ snd w = withPrefix entry report.

End Batch.

(** ** Notions of the proofs *)

(** A text without white space. *)
Definition noSpace (w : gostring) : Prop :=
  Forall (fun c => unicode.IsSpace c = false) w.

(** A field: not empty, no white space in it. *)
Definition isField (w : gostring) : Prop := w <> [] /\ noSpace w.

Definition slash : rune := 0x2F.

(** No two slashes in a row in [s], [afterSlash] telling whether the
    rune before [s] is a slash. *)
Fixpoint noSlashPair (afterSlash : bool) (s : gostring) : bool :=
  match s with
  | [] => true
  | c :: s' =>
    if c =? slash then negb afterSlash && noSlashPair true s'
    else noSlashPair false s'
  end.

(** The comment marks of one rune. *)
Definition marker (c : rune) : Prop :=
  c = 0x23 \/ c = 0x2A \/ c = 0x2B \/ c = 0x2D.

Definition replaced (s : gostring) : gostring :=
  fold_left (fun t prefix => strings.ReplaceAll t prefix (str " ")) prefixes s.

(** Two states of the walk that differ at most in what was printed. *)
Definition sameReport (a b : Aggregator) : Prop :=
  resultText a = resultText b /\ seenInTree a = seenInTree b.

Definition sameOutcome (ra rb : result Aggregator) : Prop :=
  match ra, rb with
  | Ok a, Ok b => sameReport a b
  | Err e, Err e' => e = e'
  | _, _ => False
  end.

(** The text that a list of notices makes, each followed by a line
    feed. *)
Definition written (notices : list gostring) : gostring :=
  List.concat (map (fun n => n ++ newline) notices).

Section NormalizerNotions.
Context {U : unicode.UnicodeTables}.

(** The fields the loop of [normalizeForComparison] keeps. *)
Definition keeps (field : gostring) : bool :=
  negb (isPrefixWord field) && negb (isYear field).

(** The mapping given to [strings.Map]. *)
Definition blankOrLower (r : rune) : rune :=
  if unicode.IsPunct r || unicode.IsSymbol r then 0x20 else unicode.ToLower r.

(** A rune the two maps leave alone. *)
Definition settled (c : rune) : Prop :=
  unicode.ToLower c = c /\ unicode.IsPunct c || unicode.IsSymbol c = false.

(** The output and the set of an extractor agree with a list of
    notices, clean and of different keys. *)
Definition agrees (x : Extractor) (ns : list gostring) : Prop :=
  copyright x = written ns
  /\ seenCopyrights x = rev (map normalizeForComparison ns)
  /\ NoDup (map normalizeForComparison ns)
  /\ Forall (fun n => cleanLine n = n) ns.

(** The lines the files of a walk offer to the report: the lines, not
    empty, of what [extractCopyright] returns for a file that
    [isTextFile] takes for text. *)
Definition offers (entries : list WalkEntry) (line : gostring) : Prop :=
  line <> []
  /\ exists path file out,
       In (IsFile path file) entries
       /\ isTextFile file = true
       /\ extractCopyright file = Ok out
       /\ In line (strings.Split out 0x0A).

(** The license section of the report of a directory. *)
Definition licenseSection (dir : Directory) : gostring :=
  let licenseContent := readLicense dir licenseFiles in
  if negb (eqb_str licenseContent []) then
    licenseHeader ++ licenseContent
    ++ (if negb (strings.HasSuffix licenseContent newline) then newline else [])
  else [].

(** The entries of a walk a report can depend on: not the directories,
    not the files that are not text. *)
Definition examined (entry : WalkEntry) : bool :=
  match entry with
  | Failed _ => true
  | IsDir _ => false
  | IsFile _ file => isTextFile file
  end.

End NormalizerNotions.

(** The text and the set of a walk in step: the text is the lines of the
    set in the order they came, none twice, none empty, none with a line
    feed. *)
Definition tidy (a : Aggregator) : Prop :=
  resultText a = written (rev (seenInTree a))
  /\ NoDup (seenInTree a)
  /\ Forall (fun l => l <> [] /\ ~ In 0x0A l) (seenInTree a).

(** ** Inputs of the scenarios *)

(** The files of the scenarios hold ASCII text: their bytes are their
    runes. *)

(** Two notices of one holder, different as text. *)
Definition acmeFirst : gostring := str "Copyright (c) 2020 Acme Corp.".
Definition acmeSecond : gostring := str "copyright 2020 ACME CORP".

(** A directory with no license file and one notice in each of two
    files. *)
Definition acmeTree : Directory :=
  {| ReadFile := fun _ => None;
     Walk := [IsDir (str "project");
              IsFile (str "project/a.txt") (Opened (acmeFirst ++ newline) None);
              IsFile (str "project/b.txt") (Opened (acmeSecond ++ newline) None)] |}.

(** The two comment lines of the specification's scenario, and the notice
    the code makes of them. *)
Definition twoLines : gostring :=
  str "// Copyright 2019-2021" ++ newline
  ++ str "// Example Inc. All rights reserved.".

Definition twoLinesNotice : gostring :=
  str "Copyright 2019 2021 Example Inc. All rights reserved.".

(** An extractor that is collecting a notice. *)
Definition collectingAcme : Extractor :=
  {| copyright := []; seenCopyrights := [];
     currentCopyright := acmeFirst; isCollectingCopyright := true |}.

(** A directory whose [LICENSE] can be read and is empty. *)
Definition emptyLicenseTree : Directory :=
  {| ReadFile := fun name => if eqb_str name (str "LICENSE") then Some [] else None;
     Walk := [IsDir (str "project")] |}.

(** A directory whose [LICENSE] holds [MIT License...], without a line
    feed at its end. *)
Definition mitLicense : list byte := str "MIT License...".

Definition mitTree : Directory :=
  {| ReadFile := fun name =>
       if eqb_str name (str "LICENSE") then Some mitLicense else None;
     Walk := [IsDir (str "project");
              IsFile (str "project/LICENSE") (Opened mitLicense None)] |}.

(** A file of 600 letters whose byte at offset 550 cannot be read. *)
Definition faultyFile : File := Opened (repeat 0x61 600) (Some 550%nat).

(** A file with two notices of one key, an empty line between them. *)
Definition acmeTwice : File :=
  Opened (acmeFirst ++ newline ++ newline ++ acmeSecond ++ newline) None.

(** A source file without any copyright statement. *)
Definition plainSource : list byte :=
  str "package main" ++ newline ++ str "func main() {}" ++ newline.

(** A prefix with a [Software:] line. *)
Definition softwarePrefix : gostring :=
  str "Product notice" ++ newline ++ str "Software:" ++ newline
  ++ str "Version: 1" ++ newline.

(** A root with a file and two subdirectories, the second met with a
    prefix. *)
Definition batchRoot : list DirEntry :=
  [ {| Name := str "README.md"; IsDirectory := false;
       subDir := emptyLicenseTree; prefixFile := None; writable := true |};
    {| Name := str "a"; IsDirectory := true;
       subDir := acmeTree; prefixFile := None; writable := true |};
    {| Name := str "b"; IsDirectory := true;
       subDir := mitTree; prefixFile := Some softwarePrefix; writable := true |} ].

Definition batchFiles : list (gostring * gostring) :=
  [ (str "out_a.txt", acmeFirst ++ newline ++ acmeSecond ++ newline);
    (str "out_b.txt",
     str "Product notice" ++ newline ++ str "Software: b" ++ newline
     ++ str "Version: 1" ++ newline
     ++ licenseHeader ++ mitLicense ++ newline) ].

(** * Properties *)

(** ** Strings *)

Lemma eqb_str_eq (a b : gostring) : eqb_str a b = true <-> a = b.
Proof.
  revert b; induction a as [|x a IH]; intros [|y b]; simpl;
    try (split; [discriminate | congruence]); try tauto.
  rewrite andb_true_iff, N.eqb_eq, IH.
  split; [intros [-> ->]; reflexivity | intros E; inversion E; auto].
Qed.

Lemma eqb_str_refl (a : gostring) : eqb_str a a = true.
Proof. apply eqb_str_eq; reflexivity. Qed.

Lemma eqb_str_neq (a b : gostring) : eqb_str a b = false <-> a <> b.
Proof.
  rewrite <- eqb_str_eq. destruct (eqb_str a b); split; congruence.
Qed.

Module StringFacts.
Import unicode strings.

Lemma noSpace_rev w : noSpace w -> noSpace (rev w).
Proof. apply Forall_rev. Qed.

Lemma fieldsFrom_word (w word s : gostring) :
  noSpace w -> fieldsFrom word (w ++ s) = fieldsFrom (rev w ++ word) s.
Proof.
  intros H; revert word; induction H as [|c w Hc _ IH]; intros word; simpl.
  - reflexivity.
  - rewrite Hc, IH, <- app_assoc. reflexivity.
Qed.

(** The fields read with [word] pending are fields, made of runes of
    [word] and of the text. *)
Lemma fieldsFrom_fields (P : rune -> Prop) (s : gostring) :
  forall word,
    noSpace word -> Forall P word ->
    (forall c, In c s -> IsSpace c = false -> P c) ->
    Forall (fun f => isField f /\ Forall P f) (fieldsFrom word s).
Proof.
  induction s as [|c s IH]; intros word Hw Pw Hs; simpl.
  - destruct word as [|d word]; constructor; [|constructor].
    split; [split|].
    + intros E. apply (f_equal (@List.length _)) in E.
      rewrite length_rev in E. discriminate.
    + apply noSpace_rev, Hw.
    + apply Forall_rev, Pw.
  - destruct (IsSpace c) eqn:Ec.
    + assert (Hrest : Forall (fun f => isField f /\ Forall P f) (fieldsFrom [] s)).
      { apply IH; [constructor | constructor |].
        intros d Hd; apply Hs; right; exact Hd. }
      destruct word as [|d word]; [exact Hrest|].
      constructor; [|exact Hrest].
      split; [split|].
      * intros E. apply (f_equal (@List.length _)) in E.
        rewrite length_rev in E. discriminate.
      * apply noSpace_rev, Hw.
      * apply Forall_rev, Pw.
    + apply IH.
      * constructor; assumption.
      * constructor; [apply Hs; [left; reflexivity | exact Ec] | exact Pw].
      * intros d Hd; apply Hs; right; exact Hd.
Qed.

Lemma Fields_fields (P : rune -> Prop) (s : gostring) :
  (forall c, In c s -> IsSpace c = false -> P c) ->
  Forall (fun f => isField f /\ Forall P f) (Fields s).
Proof.
  intros H. apply fieldsFrom_fields; [constructor | constructor | exact H].
Qed.

Lemma space_is_space : IsSpace 0x20 = true.
Proof. reflexivity. Qed.

(** Splitting what was joined with single spaces gives the fields
    back. *)
Lemma Fields_Join (ws : list gostring) :
  Forall isField ws -> Fields (Join ws (str " ")) = ws.
Proof.
  unfold Fields. induction 1 as [|w ws [Hne Hw] Hws IH]; [reflexivity|].
  destruct ws as [|w' ws].
  - simpl. rewrite <- (app_nil_r w) at 1.
    rewrite fieldsFrom_word by exact Hw.
    rewrite app_nil_r. simpl.
    destruct (rev w) eqn:E.
    + apply (f_equal (@rev _)) in E. rewrite rev_involutive in E.
      contradiction.
    + rewrite <- E, rev_involutive. reflexivity.
  - change (Join (w :: w' :: ws) (str " "))
      with (w ++ 0x20 :: Join (w' :: ws) (str " ")).
    rewrite fieldsFrom_word by exact Hw. rewrite app_nil_r.
    set (rest := Join (w' :: ws) (str " ")) in *.
    change (fieldsFrom (rev w) (0x20 :: rest))
      with (match rev w with
            | [] => fieldsFrom [] rest
            | _ => rev (rev w) :: fieldsFrom [] rest
            end).
    destruct (rev w) eqn:E.
    + apply (f_equal (@rev _)) in E. rewrite rev_involutive in E.
      contradiction.
    + rewrite <- E, rev_involutive, IH. reflexivity.
Qed.

Lemma In_Join (ws : list gostring) (c : rune) :
  In c (Join ws (str " ")) -> c = 0x20 \/ exists w, In w ws /\ In c w.
Proof.
  induction ws as [|w ws IH]; [intros []|].
  destruct ws as [|w' ws].
  - simpl. intros H. right. exists w. auto.
  - change (Join (w :: w' :: ws) (str " "))
      with (w ++ 0x20 :: Join (w' :: ws) (str " ")).
    rewrite in_app_iff. intros [H|[H|H]].
    + right. exists w. split; [left; reflexivity | exact H].
    + left. symmetry. exact H.
    + destruct (IH H) as [E|[v [Hv Hc]]]; [left; exact E|].
      right. exists v. split; [right; exact Hv | exact Hc].
Qed.

End StringFacts.

(** ** The line normaliser *)

Section NormalizerFacts.
Import unicode strings StringFacts.
Context {U : UnicodeTables}.

(** The test for a year range asks of its first field what the test for
    a bare year asks. *)
Lemma isYearRange_isYear (field sep field2 : gostring) :
  isYearRange field sep field2 = true -> isYear field = true.
Proof.
  unfold isYearRange, isYear.
  destruct (len field =? 4)%nat; [|discriminate].
  destruct (strconv.Atoi field); [reflexivity | discriminate].
Qed.

(** So the range is never taken: the loop is a filter. *)
Lemma cleanFieldsFrom_filter (fields : list gostring) :
  cleanFieldsFrom fields = filter keeps fields.
Proof.
  induction fields as [|field rest IH]; [reflexivity|].
  simpl. unfold keeps at 1.
  destruct (isPrefixWord field); [exact IH|].
  destruct (isYear field) eqn:Ey; [exact IH|].
  simpl. destruct rest as [|sep [|field2 rest']]; try (rewrite IH; reflexivity).
  destruct (isYearRange field sep field2) eqn:Er.
  - apply isYearRange_isYear in Er. congruence.
  - rewrite IH. reflexivity.
Qed.

Lemma filter_keeps_twice (fields : list gostring) :
  filter keeps (filter keeps fields) = filter keeps fields.
Proof.
  induction fields as [|field rest IH]; [reflexivity|].
  simpl. destruct (keeps field) eqn:E; [|exact IH].
  simpl. rewrite E, IH. reflexivity.
Qed.

Lemma normalizeForComparison_eq (s : gostring) :
  normalizeForComparison s =
  Join (filter keeps (Fields (map blankOrLower (map unicode.ToLower s))))
       (str " ").
Proof.
  unfold normalizeForComparison. rewrite cleanFieldsFrom_filter.
  reflexivity.
Qed.

Lemma blankOrLower_settled (c : rune) :
  c = 0x20 \/ settled c -> blankOrLower (unicode.ToLower c) = c.
Proof.
  intros [->|[Hl Hp]]; [reflexivity|].
  unfold blankOrLower. rewrite !Hl, Hp. reflexivity.
Qed.

Section Idempotent.
Hypothesis ToLower_twice :
  forall r, unicode.ToLower (unicode.ToLower r) = unicode.ToLower r.

Lemma mapped_settled (x : rune) :
  IsSpace (blankOrLower (unicode.ToLower x)) = false ->
  settled (blankOrLower (unicode.ToLower x)).
Proof.
  unfold blankOrLower.
  destruct (IsPunct (unicode.ToLower x) || IsSymbol (unicode.ToLower x)) eqn:E.
  - discriminate.
  - intros _. rewrite ToLower_twice. split; [apply ToLower_twice | exact E].
Qed.

Lemma kept_fields (s : gostring) :
  Forall (fun f => isField f /\ Forall settled f)
         (filter keeps (Fields (map blankOrLower (map unicode.ToLower s)))).
Proof.
  apply Forall_forall. intros f Hf. apply filter_In in Hf as [Hf _].
  revert f Hf. apply Forall_forall. apply Fields_fields.
  intros c Hc. rewrite map_map in Hc.
  apply in_map_iff in Hc as [x [<- _]]. apply mapped_settled.
Qed.

(** C4: [normalizeForComparison] is idempotent: the key of a key is that
    key, for every string.  Of the tables of the Go distribution this
    asks one thing, that lowering a lowered rune changes nothing. *)
Theorem normalizeForComparison_idempotent (s : gostring) :
  normalizeForComparison (normalizeForComparison s)
  = normalizeForComparison s.
Proof.
  rewrite !normalizeForComparison_eq.
  set (ws := filter keeps
               (Fields (map blankOrLower (map unicode.ToLower s)))).
  assert (Hws : Forall (fun f => isField f /\ Forall settled f) ws)
    by apply kept_fields.
  assert (Hmap : map blankOrLower (map unicode.ToLower (Join ws (str " ")))
                 = Join ws (str " ")).
  { rewrite map_map. rewrite <- (map_id (Join ws (str " "))) at 2.
    apply map_ext_in. intros c Hc. apply blankOrLower_settled.
    apply In_Join in Hc as [E|[w [Hw Hc]]]; [left; exact E | right].
    rewrite Forall_forall in Hws. destruct (Hws w Hw) as [_ Hs].
    rewrite Forall_forall in Hs. apply Hs, Hc. }
  rewrite Hmap, Fields_Join.
  - unfold ws. rewrite filter_keeps_twice. reflexivity.
  - eapply Forall_impl; [|exact Hws]. intros f [Hf _]. exact Hf.
Qed.
End Idempotent.

End NormalizerFacts.

(** ** The line cleaner: its loop ends *)

Module CleanerFacts.
Import unicode strings StringFacts.

Lemma noSlashPair_weaken (b : bool) (s : gostring) :
  noSlashPair b s = true -> noSlashPair false s = true.
Proof.
  destruct s as [|c s]; [reflexivity|]. simpl.
  destruct (c =? slash); [|auto].
  destruct b; simpl; [discriminate | auto].
Qed.

Lemma noSlashPair_skipn (k : nat) :
  forall b s, noSlashPair b s = true -> noSlashPair false (skipn k s) = true.
Proof.
  induction k as [|k IH]; intros b s H.
  - simpl. eapply noSlashPair_weaken, H.
  - destruct s as [|c s]; [reflexivity|]. simpl in *.
    destruct (c =? slash).
    + apply andb_true_iff in H as [_ H]. eapply IH, H.
    + eapply IH, H.
Qed.

Lemma noSlashPair_app_space (a x : gostring) :
  forall b, noSlashPair b (a ++ 0x20 :: x)
            = noSlashPair b a && noSlashPair false x.
Proof.
  induction a as [|c a IH]; intros b; simpl.
  - reflexivity.
  - destruct (c =? slash); rewrite IH; [|reflexivity].
    rewrite andb_assoc. reflexivity.
Qed.

Lemma noSlashPair_app (a x : gostring) :
  forall b, noSlashPair b (a ++ x) = true ->
            noSlashPair b a = true /\ noSlashPair false x = true.
Proof.
  induction a as [|c a IH]; intros b; simpl.
  - intros H. split; [reflexivity | eapply noSlashPair_weaken, H].
  - destruct (c =? slash).
    + rewrite !andb_true_iff. intros [Hb H]. apply IH in H. tauto.
    + apply IH.
Qed.

(** *** [ReplaceAll] *)

Lemma replaceFrom_skip (old new : gostring) (k : nat) :
  forall s, replaceFrom k s old new = replaceFrom 0 (skipn k s) old new.
Proof.
  induction k as [|k IH]; intros s; [reflexivity|].
  destruct s as [|c s]; [reflexivity|]. simpl. apply IH.
Qed.

Lemma replaceFrom_cons (old new : gostring) (c : rune) (s : gostring) :
  replaceFrom 0 (c :: s) old new =
  if HasPrefix (c :: s) old
  then new ++ replaceFrom 0 (skipn (List.length old - 1) s) old new
  else c :: replaceFrom 0 s old new.
Proof.
  simpl replaceFrom. rewrite replaceFrom_skip. reflexivity.
Qed.

(** An induction on texts that may step over several runes at once. *)
Lemma skip_induction (P : gostring -> Prop) :
  P [] ->
  (forall c s, (forall k, P (skipn k s)) -> P (c :: s)) ->
  forall s, P s.
Proof.
  intros Hnil Hcons s.
  assert (H : forall k, P (skipn k s)); [|exact (H 0%nat)].
  induction s as [|c s IH]; intros k.
  - destruct k; exact Hnil.
  - destruct k as [|k]; [|apply IH].
    simpl. apply Hcons, IH.
Qed.

Lemma HasPrefix_incl (p s : gostring) :
  HasPrefix s p = true -> incl p s.
Proof.
  revert s; induction p as [|x p IH]; intros s H; [intros ? []|].
  destruct s as [|c s]; [discriminate|]. simpl in H.
  apply andb_true_iff in H as [E H]. apply N.eqb_eq in E. subst c.
  intros y [<-|Hy]; [left; reflexivity | right; apply (IH s H), Hy].
Qed.

Lemma Contains_incl (p s : gostring) :
  Contains s p = true -> incl p s.
Proof.
  induction s as [|c s IH]; simpl; rewrite orb_true_iff.
  - intros [H|H]; [apply HasPrefix_incl, H | discriminate].
  - intros [H|H]; [apply HasPrefix_incl, H|].
    intros y Hy. right. apply (IH H), Hy.
Qed.

Lemma Contains_head (p s : gostring) :
  Contains s p = false -> HasPrefix s p = false.
Proof.
  destruct s; simpl; intros H; apply orb_false_iff in H; tauto.
Qed.

(** Where the pattern does not occur, nothing is replaced. *)
Lemma ReplaceAll_absent (old new s : gostring) :
  Contains s old = false -> ReplaceAll s old new = s.
Proof.
  unfold ReplaceAll. induction s as [|c s IH]; [reflexivity|].
  intros H. rewrite replaceFrom_cons, (Contains_head _ _ H).
  simpl in H. apply orb_false_iff in H as [_ H].
  rewrite (IH H). reflexivity.
Qed.

Lemma In_skipped (k : nat) (s : gostring) (x : rune) :
  In x (skipn k s) -> In x s.
Proof.
  intros H. rewrite <- (firstn_skipn k s). apply in_or_app. right. exact H.
Qed.

(** Replacing by a space brings in nothing but spaces. *)
Lemma In_ReplaceAll (old s : gostring) (x : rune) :
  In x (ReplaceAll s old (str " ")) -> x = 0x20 \/ In x s.
Proof.
  unfold ReplaceAll. revert x.
  induction s as [|c s IH] using skip_induction; intros x; [intros []|].
  rewrite replaceFrom_cons. destruct (HasPrefix (c :: s) old).
  - intros [E|H]; [left; symmetry; exact E|].
    apply IH in H as [E|H]; [left; exact E|].
    right. right. eapply In_skipped, H.
  - intros [E|H]; [right; left; exact E|].
    apply (IH 0%nat) in H as [E|H]; [left; exact E | right; right; exact H].
Qed.

(** Replacing a one-rune pattern leaves none of that rune. *)
Lemma ReplaceAll_rune_gone (m : rune) (s : gostring) :
  m <> 0x20 -> ~ In m (ReplaceAll s [m] (str " ")).
Proof.
  intros Hm. unfold ReplaceAll.
  induction s as [|c s IH]; [intros []|].
  rewrite replaceFrom_cons.
  replace (HasPrefix (c :: s) [m]) with (c =? m)
    by (simpl; destruct s; rewrite andb_true_r; reflexivity).
  destruct (c =? m) eqn:E.
  - simpl. intros [H|H]; [congruence | exact (IH H)].
  - apply N.eqb_neq in E. simpl. intros [H|H]; [congruence | exact (IH H)].
Qed.

(** Replacing the double slash leaves no double slash. *)
Lemma ReplaceAll_slashes (s : gostring) :
  noSlashPair false (ReplaceAll s (str "//") (str " ")) = true.
Proof.
  unfold ReplaceAll.
  enough (H : noSlashPair false (replaceFrom 0 s (str "//") (str " ")) = true
              /\ (HasPrefix s [slash] = false ->
                  noSlashPair true (replaceFrom 0 s (str "//") (str " ")) = true))
    by apply H.
  induction s as [|c s IH] using skip_induction; [split; reflexivity|].
  rewrite replaceFrom_cons.
  change (HasPrefix (c :: s) (str "//")) with ((c =? slash) && HasPrefix s [slash]).
  change (HasPrefix (c :: s) [slash]) with ((c =? slash) && true).
  remember (HasPrefix s [slash]) as next eqn:Ep.
  destruct (c =? slash) eqn:Ec; [destruct next|]; simpl andb; cbv iota.
  - split; [apply (IH 1%nat) | discriminate].
  - split; [|discriminate].
    simpl. rewrite Ec. simpl. apply (IH 0%nat). symmetry. exact Ep.
  - split; [|intros _]; simpl; rewrite Ec; apply (IH 0%nat).
Qed.

(** Replacing anything by a space makes no double slash. *)
Lemma ReplaceAll_keeps_noSlashPair (old s : gostring) :
  forall b, noSlashPair b s = true ->
            noSlashPair b (ReplaceAll s old (str " ")) = true.
Proof.
  unfold ReplaceAll.
  induction s as [|c s IH] using skip_induction; intros b H; [reflexivity|].
  rewrite replaceFrom_cons. destruct (HasPrefix (c :: s) old).
  - change (noSlashPair false
              (replaceFrom 0 (skipn (List.length old - 1) s) old (str " ")) = true).
    apply IH. simpl in H. destruct (c =? slash).
    + apply andb_true_iff in H as [_ H]. eapply noSlashPair_skipn, H.
    + eapply noSlashPair_skipn, H.
  - simpl in *. destruct (c =? slash).
    + apply andb_true_iff in H as [Hb H]. rewrite Hb. apply (IH 0%nat), H.
    + apply (IH 0%nat), H.
Qed.

Lemma noSlashPair_Contains (s : gostring) :
  forall b, noSlashPair b s = true -> Contains s (str "//") = false.
Proof.
  induction s as [|c s IH]; intros b H; [reflexivity|].
  change (Contains (c :: s) (str "//"))
    with ((c =? slash) && HasPrefix s [slash] || Contains s (str "//")).
  simpl in H. destruct (c =? slash).
  - apply andb_true_iff in H as [_ H]. rewrite (IH _ H), orb_false_r.
    destruct s as [|d s]; [reflexivity|].
    simpl in *. destruct (d =? slash); [discriminate | reflexivity].
  - apply (IH _ H).
Qed.

(** *** [Fields] and [Join] *)

Lemma fieldsFrom_noSlashPair (s : gostring) :
  forall word,
    noSlashPair false (rev word ++ s) = true ->
    Forall (fun f => noSlashPair false f = true) (fieldsFrom word s).
Proof.
  induction s as [|c s IH]; intros word H; simpl.
  - rewrite app_nil_r in H. destruct word; constructor; [exact H | constructor].
  - apply noSlashPair_app in H as Hsplit. destruct Hsplit as [Hw Hs].
    destruct (IsSpace c) eqn:Ec.
    + assert (Hrest : Forall (fun f => noSlashPair false f = true) (fieldsFrom [] s)).
      { apply IH. simpl in *. destruct (c =? slash) eqn:E; [|exact Hs].
        apply N.eqb_eq in E. subst c. discriminate. }
      destruct word; [exact Hrest | constructor; [exact Hw | exact Hrest]].
    + apply IH. simpl. rewrite <- app_assoc. exact H.
Qed.

Lemma Join_noSlashPair (ws : list gostring) :
  Forall (fun f => noSlashPair false f = true) ws ->
  noSlashPair false (Join ws (str " ")) = true.
Proof.
  induction 1 as [|w ws Hw Hws IH]; [reflexivity|].
  destruct ws as [|w' ws]; [exact Hw|].
  change (Join (w :: w' :: ws) (str " "))
    with (w ++ 0x20 :: Join (w' :: ws) (str " ")).
  rewrite noSlashPair_app_space, Hw, IH. reflexivity.
Qed.

(** *** [TrimSpace] *)

Lemma trimLeft_field (w y : gostring) :
  isField w -> trimLeft (w ++ y) = w ++ y.
Proof.
  intros [Hne Hw]. destruct w as [|c w]; [contradiction|].
  inversion Hw as [|? ? Hc _]; subst. simpl. rewrite Hc. reflexivity.
Qed.

Lemma Join_first (w : gostring) (ws : list gostring) :
  exists y, Join (w :: ws) (str " ") = w ++ y.
Proof.
  destruct ws as [|w' ws].
  - exists []. simpl. rewrite app_nil_r. reflexivity.
  - exists (0x20 :: Join (w' :: ws) (str " ")). reflexivity.
Qed.

Lemma Join_last (ws : list gostring) :
  ws <> [] -> exists x w, In w ws /\ Join ws (str " ") = x ++ w.
Proof.
  induction ws as [|w ws IH]; [contradiction|]. intros _.
  destruct ws as [|w' ws].
  - exists [], w. split; [left; reflexivity | reflexivity].
  - destruct IH as [x [v [Hv E]]]; [discriminate|].
    exists (w ++ 0x20 :: x), v. split; [right; exact Hv|].
    change (Join (w :: w' :: ws) (str " "))
      with (w ++ 0x20 :: Join (w' :: ws) (str " ")).
    rewrite E, <- app_assoc. reflexivity.
Qed.

Lemma TrimSpace_Join (ws : list gostring) :
  Forall isField ws -> TrimSpace (Join ws (str " ")) = Join ws (str " ").
Proof.
  intros Hws. unfold TrimSpace.
  destruct ws as [|w ws]; [reflexivity|].
  destruct (Join_first w ws) as [y Ey].
  destruct (@Join_last (w :: ws)) as [x [v [Hv Ex]]]; [discriminate|].
  assert (Hw : isField w) by (inversion Hws; assumption).
  assert (Hfv : isField v) by (rewrite Forall_forall in Hws; apply Hws, Hv).
  rewrite Ey at 1. rewrite trimLeft_field by exact Hw. rewrite <- Ey.
  rewrite Ex at 1. rewrite rev_app_distr, trimLeft_field.
  - rewrite <- rev_app_distr, rev_involutive. symmetry. exact Ex.
  - destruct Hfv as [Hne Hns]. split; [|apply noSpace_rev, Hns].
    intros E. apply (f_equal (@rev _)) in E.
    rewrite rev_involutive in E. contradiction.
Qed.

(** *** One turn of the loop, and a second one *)

Lemma cleanOnce_eq (s : gostring) :
  cleanOnce s = Join (Fields (replaced (TrimSpace s))) (str " ").
Proof. reflexivity. Qed.

Ltac peel H :=
  first
    [ refine (@ReplaceAll_rune_gone _ _ _ H); discriminate
    | let E := fresh "E" in
      apply In_ReplaceAll in H as [E|H]; [discriminate E | peel H] ].

Lemma replaced_no_marker (s : gostring) (c : rune) :
  In c (replaced s) -> ~ marker c.
Proof.
  unfold replaced, prefixes. cbn [map fold_left].
  intros H [E|[E|[E|E]]]; subst c; peel H.
Qed.

Lemma replaced_noSlashPair (s : gostring) :
  noSlashPair false (replaced s) = true.
Proof.
  unfold replaced, prefixes. cbn [map fold_left].
  do 8 apply ReplaceAll_keeps_noSlashPair. apply ReplaceAll_slashes.
Qed.

Lemma marker_absent (t p : gostring) (m : rune) :
  (forall c, In c t -> ~ marker c) -> marker m -> In m p ->
  Contains t p = false.
Proof.
  intros Ht Hm Hp. destruct (Contains t p) eqn:E; [|reflexivity].
  exfalso. apply (Ht m); [|exact Hm]. apply (Contains_incl _ _ E), Hp.
Qed.

(** Without marks and double slashes there is nothing to replace. *)
Lemma replaced_fixed (t : gostring) :
  (forall c, In c t -> ~ marker c) -> noSlashPair false t = true ->
  replaced t = t.
Proof.
  intros Ht Hs. unfold replaced, prefixes. cbn [map fold_left].
  rewrite (@ReplaceAll_absent (str "//") (str " ") t)
    by (eapply noSlashPair_Contains, Hs).
  rewrite (@ReplaceAll_absent (str "/*") (str " ") t)
    by (apply (@marker_absent t _ 0x2A Ht); [unfold marker; tauto | right; left; reflexivity]).
  rewrite (@ReplaceAll_absent (str "*/") (str " ") t)
    by (apply (@marker_absent t _ 0x2A Ht); [unfold marker; tauto | left; reflexivity]).
  rewrite (@ReplaceAll_absent (str "#") (str " ") t)
    by (apply (@marker_absent t _ 0x23 Ht); [unfold marker; tauto | left; reflexivity]).
  rewrite (@ReplaceAll_absent (str "*") (str " ") t)
    by (apply (@marker_absent t _ 0x2A Ht); [unfold marker; tauto | left; reflexivity]).
  rewrite (@ReplaceAll_absent (str "+") (str " ") t)
    by (apply (@marker_absent t _ 0x2B Ht); [unfold marker; tauto | left; reflexivity]).
  rewrite (@ReplaceAll_absent (str "-") (str " ") t)
    by (apply (@marker_absent t _ 0x2D Ht); [unfold marker; tauto | left; reflexivity]).
  rewrite (@ReplaceAll_absent (str "<!--") (str " ") t)
    by (apply (@marker_absent t _ 0x2D Ht); [unfold marker; tauto | right; right; left; reflexivity]).
  rewrite (@ReplaceAll_absent (str "-->") (str " ") t)
    by (apply (@marker_absent t _ 0x2D Ht); [unfold marker; tauto | left; reflexivity]).
  reflexivity.
Qed.

(** A second turn changes nothing. *)
Lemma cleanOnce_twice (s : gostring) :
  cleanOnce (cleanOnce s) = cleanOnce s.
Proof.
  rewrite (cleanOnce_eq s).
  set (ws := Fields (replaced (TrimSpace s))).
  assert (Hf : Forall (fun f => isField f /\ Forall (fun c => ~ marker c) f) ws).
  { apply Fields_fields. intros c Hc _. eapply replaced_no_marker, Hc. }
  assert (Hfield : Forall isField ws).
  { eapply Forall_impl; [|exact Hf]. intros f [H _]. exact H. }
  assert (Hs : Forall (fun f => noSlashPair false f = true) ws).
  { apply fieldsFrom_noSlashPair. apply replaced_noSlashPair. }
  rewrite cleanOnce_eq, TrimSpace_Join by exact Hfield.
  rewrite replaced_fixed.
  - rewrite Fields_Join by exact Hfield. reflexivity.
  - intros c Hc. apply In_Join in Hc as [->|[w [Hw Hc]]].
    + unfold marker. intros [E|[E|[E|E]]]; discriminate E.
    + rewrite Forall_forall in Hf. destruct (Hf w Hw) as [_ Hm].
      rewrite Forall_forall in Hm. apply Hm, Hc.
  - apply Join_noSlashPair, Hs.
Qed.

(** The loop of [cleanLine] breaks in its first or in its second
    turn. *)
Lemma cleanLoop_converges (turns : nat) (line : gostring) :
  cleanLoop (S (S turns)) line = Some (cleanOnce line).
Proof.
  simpl. destruct (eqb_str line (cleanOnce line)); [reflexivity|].
  rewrite cleanOnce_twice, eqb_str_refl. reflexivity.
Qed.

Lemma cleanLine_eq (line : gostring) : cleanLine line = cleanOnce line.
Proof. unfold cleanLine. rewrite cleanLoop_converges. reflexivity. Qed.

End CleanerFacts.

(** ** The notice extractor *)

Section ExtractorFacts.
Import unicode strings.
Context {U : UnicodeTables}.

Lemma HasPrefix_map (g : rune -> rune) (p s : gostring) :
  HasPrefix s p = true -> HasPrefix (map g s) (map g p) = true.
Proof.
  revert s; induction p as [|x p IH]; intros s; [reflexivity|].
  destruct s as [|c s]; [discriminate|]. simpl.
  rewrite !andb_true_iff, !N.eqb_eq. intros [-> H]. split; [reflexivity | apply IH, H].
Qed.

Lemma Contains_map (g : rune -> rune) (p s : gostring) :
  Contains s p = true -> Contains (map g s) (map g p) = true.
Proof.
  induction s as [|c s IH]; simpl; rewrite !orb_true_iff.
  - intros [H|H]; [left; apply (HasPrefix_map g p [] H) | discriminate].
  - intros [H|H]; [left; apply (HasPrefix_map g p (c :: s) H) | right; apply IH, H].
Qed.

(** Where the line has [(C)], the lowercased line has [(c)]. *)
Lemma lowercase_has_c (trimmedLine : gostring) :
  Contains trimmedLine (str "(C)") = true ->
  Contains (strings.ToLower trimmedLine) (str "(c)") = true.
Proof.
  intros H. apply (Contains_map unicode.ToLower) in H. exact H.
Qed.

(** C10: the copyright-signal test of [extractCopyright] accepts the
    same lines with and without its case-sensitive clause for [(C)] on
    the untouched line, because the lowercased line has [(c)] wherever
    the line has [(C)]. *)
Theorem upper_C_clause_redundant (trimmedLine : gostring) :
  (Contains trimmedLine (str "(C)") = true ->
   Contains (strings.ToLower trimmedLine) (str "(c)") = true)
  /\ isCopyrightLine (strings.ToLower trimmedLine) trimmedLine
     = isCopyrightLine_lowercase_only (strings.ToLower trimmedLine).
Proof.
  split; [apply lowercase_has_c|].
  unfold isCopyrightLine, isCopyrightLine_lowercase_only.
  destruct (Contains trimmedLine (str "(C)")) eqn:E.
  - rewrite (lowercase_has_c _ E), !orb_true_r. reflexivity.
  - rewrite orb_false_r. reflexivity.
Qed.

Lemma turn_code_line (atEOF : bool) (x : Extractor) (line : gostring) :
  isCodeLine (strings.ToLower (TrimSpace line)) = true ->
  turn atEOF x line = endOfNotice x.
Proof.
  intros H. unfold turn.
  destruct (eqb_str (TrimSpace line) []); [reflexivity|].
  rewrite H. reflexivity.
Qed.

Lemma endOfNotice_idle (x : Extractor) :
  isCollectingCopyright (endOfNotice x) = false.
Proof.
  unfold endOfNotice. destruct (isCollectingCopyright x) eqn:E; [reflexivity | exact E].
Qed.

(** What [endOfNotice] leaves in the buffer is what was there, or
    nothing. *)
Lemma endOfNotice_buffer (x : Extractor) :
  currentCopyright (endOfNotice x) = currentCopyright x
  \/ currentCopyright (endOfNotice x) = [].
Proof.
  unfold endOfNotice. destruct (isCollectingCopyright x); [|left; reflexivity].
  destruct (0 <? len (currentCopyright x))%nat; [right | left]; reflexivity.
Qed.

(** C5: a line with a code signal is discarded whole.  The turn of the
    loop on it does what the end of a notice does, which does not look at
    the line: the collected notice, if any, is written out, collection is
    off afterwards, and the buffer holds what it held or nothing; whether
    the line also carries a copyright signal is never asked. *)
Theorem code_line_discarded (atEOF : bool) (x : Extractor) (line : gostring) :
  isCodeLine (strings.ToLower (TrimSpace line)) = true ->
  turn atEOF x line = endOfNotice x
  /\ isCollectingCopyright (turn atEOF x line) = false
  /\ (currentCopyright (turn atEOF x line) = currentCopyright x
      \/ currentCopyright (turn atEOF x line) = []).
Proof.
  intros H. rewrite (turn_code_line atEOF x line H).
  split; [reflexivity|]. split; [apply endOfNotice_idle | apply endOfNotice_buffer].
Qed.

End ExtractorFacts.

(** ** The file classifier *)

Section ClassifierFacts.

Lemma has_zero_byte (buf : list byte) :
  existsb (fun b => b =? 0) buf = true <-> In 0 buf.
Proof.
  rewrite existsb_exists. split.
  - intros [b [Hb E]]. apply N.eqb_eq in E. subst b. exact Hb.
  - intros H. exists 0. split; [exact H | reflexivity].
Qed.

Lemma has_control_byte (buf : list byte) :
  existsb (fun b => (b <? 32) && negb (isAllowedControlChar b)) buf = true
  <-> exists b, In b buf /\ b < 32 /\ b <> 0x0A /\ b <> 0x0D /\ b <> 0x09.
Proof.
  rewrite existsb_exists. unfold isAllowedControlChar.
  split; intros [b [Hb H]]; exists b; (split; [exact Hb|]).
  - apply andb_true_iff in H as [Hlt Hn]. apply N.ltb_lt in Hlt.
    apply negb_true_iff in Hn. apply orb_false_iff in Hn as [Hn H3].
    apply orb_false_iff in Hn as [H1 H2].
    apply N.eqb_neq in H1, H2, H3. tauto.
  - destruct H as [Hlt [H1 [H2 H3]]].
    apply N.ltb_lt in Hlt. apply N.eqb_neq in H1, H2, H3.
    rewrite Hlt, H1, H2, H3. reflexivity.
Qed.

Lemma isTextFile_false (path : File) :
  isTextFile path = false <->
  (exists e, openAndRead path 512 = Err e)
  \/ (exists buf, openAndRead path 512 = Ok buf
        /\ (In 0 buf
            \/ exists b, In b buf /\ b < 32
                         /\ b <> 0x0A /\ b <> 0x0D /\ b <> 0x09)).
Proof.
  unfold isTextFile. destruct (openAndRead path 512) as [buf|e].
  - destruct (existsb (fun b => b =? 0) buf) eqn:Ez;
      [|destruct (existsb (fun b => (b <? 32) && negb (isAllowedControlChar b)) buf)
          eqn:Ec].
    + split; [intros _ | reflexivity].
      right. exists buf. split; [reflexivity|]. left. apply has_zero_byte, Ez.
    + split; [intros _ | reflexivity].
      right. exists buf. split; [reflexivity|]. right. apply has_control_byte, Ec.
    + split; [discriminate|].
      intros [[e E]|[buf' [E [H|H]]]]; [discriminate| |]; injection E as <-.
      * apply has_zero_byte in H. congruence.
      * apply has_control_byte in H. congruence.
  - split; [intros _; left; exists e; reflexivity | reflexivity].
Qed.

Lemma openAndRead_sample (data : list byte) (fault : option nat) (buf : list byte) :
  openAndRead (Opened data fault) 512 = Ok buf -> buf = firstn 512 data.
Proof.
  unfold openAndRead.
  destruct (reaches fault (List.length (firstn 512 data))); [discriminate|].
  intros E. injection E as <-. reflexivity.
Qed.

(** C6: [isTextFile] reads once, at most 512 bytes, from the start of
    the file, so that files that agree on their first 512 bytes are
    classified alike; it answers false exactly when the file cannot be
    opened or read, or what was read holds a zero byte or a byte below 32
    other than line feed, carriage return and tab; and a file with a zero
    byte among its first 512 bytes is never text. *)
Theorem isTextFile_spec :
  (forall data data' fault,
      firstn 512 data = firstn 512 data' ->
      isTextFile (Opened data fault) = isTextFile (Opened data' fault))
  /\ (forall path,
         isTextFile path = false <->
         (exists e, openAndRead path 512 = Err e)
         \/ (exists buf, openAndRead path 512 = Ok buf
               /\ (In 0 buf
                   \/ exists b, In b buf /\ b < 32
                                /\ b <> 0x0A /\ b <> 0x0D /\ b <> 0x09)))
  /\ (forall data fault,
         In 0 (firstn 512 data) -> isTextFile (Opened data fault) = false).
Proof.
  split; [|split].
  - intros data data' fault E. unfold isTextFile, openAndRead.
    rewrite E. reflexivity.
  - apply isTextFile_false.
  - intros data fault H. apply isTextFile_false.
    destruct (openAndRead (Opened data fault) 512) as [buf|e] eqn:E.
    + right. exists buf. split; [reflexivity|]. left.
      rewrite (openAndRead_sample _ _ E). exact H.
    + left. exists e. reflexivity.
Qed.

Lemma firstn_nil_inv (n : nat) (data : list byte) :
  firstn (S n) data = [] -> data = [].
Proof. destruct data; [reflexivity | discriminate]. Qed.

End ClassifierFacts.

Section EmptyFile.
Context {U : unicode.UnicodeTables}.

(** C9: a file that opens and whose first read delivers no byte (the read
    meets the end of the data, which is no error) is classified as text,
    and the extractor, given that file, returns the empty string without
    error. *)
Theorem empty_file_is_text (path : File) :
  openAndRead path 512 = Ok [] ->
  isTextFile path = true /\ extractCopyright path = Ok [].
Proof.
  intros H. split.
  - unfold isTextFile. rewrite H. reflexivity.
  - destruct path as [|data fault]; [discriminate|].
    apply openAndRead_sample in H. symmetry in H.
    apply firstn_nil_inv in H. subst data.
    destruct fault; reflexivity.
Qed.

End EmptyFile.

(** ** The directory aggregator *)

Section AggregatorFacts.
Import unicode strings.
Context {U : UnicodeTables}.

Lemma sameReport_refl (a : Aggregator) : sameReport a a.
Proof. split; reflexivity. Qed.

Lemma printError_same (path : gostring) (a : Aggregator) :
  sameReport (printError path a) a.
Proof. split; reflexivity. Qed.

Lemma addNotice_same (a b : Aggregator) (c : gostring) :
  sameReport a b -> sameReport (addNotice a c) (addNotice b c).
Proof.
  intros [Hr Hs]. unfold addNotice. rewrite Hs.
  destruct (negb (eqb_str c []) && negb (existsb (eqb_str c) (seenInTree b)));
    split; simpl; congruence.
Qed.

Lemma addNotices_same (cs : list gostring) :
  forall a b, sameReport a b ->
              sameReport (fold_left addNotice cs a) (fold_left addNotice cs b).
Proof.
  induction cs as [|c cs IH]; intros a b H; [exact H|].
  simpl. apply IH, addNotice_same, H.
Qed.

Lemma walkFn_same (a b : Aggregator) (entry : WalkEntry) :
  sameReport a b -> sameOutcome (walkFn a entry) (walkFn b entry).
Proof.
  intros H. destruct entry as [path|path|path file]; simpl; [reflexivity | exact H |].
  destruct (negb (isTextFile file)); [exact H|].
  destruct (extractCopyright file) as [copyright|e].
  - destruct (negb (eqb_str copyright [])); [apply addNotices_same, H | exact H].
  - destruct H as [Hr Hs]. split; simpl; assumption.
Qed.

Lemma walk_same (entries : list WalkEntry) :
  forall a b, sameReport a b -> sameOutcome (walk a entries) (walk b entries).
Proof.
  induction entries as [|entry entries IH]; intros a b H; [exact H|].
  simpl. pose proof (walkFn_same entry H) as Hs.
  destruct (walkFn a entry) as [a'|e], (walkFn b entry) as [b'|e'];
    simpl in Hs; try contradiction.
  - apply IH, Hs.
  - exact Hs.
Qed.

Lemma walk_app (before after : list WalkEntry) :
  forall a, walk a (before ++ after)
            = match walk a before with
              | Ok a' => walk a' after
              | Err e => Err e
              end.
Proof.
  induction before as [|entry before IH]; intros a; [reflexivity|].
  simpl. destruct (walkFn a entry) as [a'|e]; [apply IH | reflexivity].
Qed.

(** The report is decided by the text and the set the walk ends with. *)
Lemma ScanDirectory_same (readFile : gostring -> option (list byte))
      (entries entries' : list WalkEntry) :
  sameOutcome (walk newAggregator entries) (walk newAggregator entries') ->
  ScanDirectory {| ReadFile := readFile; Walk := entries |}
  = ScanDirectory {| ReadFile := readFile; Walk := entries' |}.
Proof.
  unfold ScanDirectory, ScanDirectoryLogged. simpl Walk.
  destruct (walk newAggregator entries) as [a|e],
           (walk newAggregator entries') as [b|e']; simpl; try contradiction.
  - intros [Hr _]. rewrite Hr. reflexivity.
  - intros ->. reflexivity.
Qed.

Lemma walkFn_extraction_error (a : Aggregator) (path : gostring) (file : File)
      (e : error) :
  isTextFile file = true -> extractCopyright file = Err e ->
  walkFn a (IsFile path file) = Ok (printError path a).
Proof. intros Ht He. simpl. rewrite Ht, He. reflexivity. Qed.

Lemma walkFn_no_notice (a : Aggregator) (path : gostring) (file : File) :
  isTextFile file = true -> extractCopyright file = Ok [] ->
  walkFn a (IsFile path file) = Ok a.
Proof. intros Ht He. simpl. rewrite Ht, He. reflexivity. Qed.

(** C7: when [extractCopyright] fails on a file of the walk, the callback
    prints a message and returns no error, with the report text and the
    set of seen notices as they were; so the report of the directory is
    the report it would have with, in place of that file, a file whose
    extraction gives the empty string, and the report it would have
    without that entry. *)
Theorem extraction_error_is_empty_result
        (readFile : gostring -> option (list byte))
        (before after : list WalkEntry) (path : gostring)
        (file quiet : File) (e : error) :
  isTextFile file = true -> extractCopyright file = Err e ->
  isTextFile quiet = true -> extractCopyright quiet = Ok [] ->
  (forall a, walkFn a (IsFile path file) = Ok (printError path a))
  /\ ScanDirectory {| ReadFile := readFile;
                      Walk := before ++ IsFile path file :: after |}
     = ScanDirectory {| ReadFile := readFile;
                        Walk := before ++ IsFile path quiet :: after |}
  /\ ScanDirectory {| ReadFile := readFile;
                      Walk := before ++ IsFile path file :: after |}
     = ScanDirectory {| ReadFile := readFile; Walk := before ++ after |}.
Proof.
  intros Ht He Hqt Hqe.
  split; [intros a; eapply walkFn_extraction_error; eassumption|].
  split; apply ScanDirectory_same; rewrite !walk_app;
    destruct (walk newAggregator before) as [a|e0]; try reflexivity;
    cbn [walk]; rewrite (@walkFn_extraction_error a path file e Ht He).
  - rewrite (@walkFn_no_notice a path quiet Hqt Hqe).
    apply walk_same, printError_same.
  - apply walk_same, printError_same.
Qed.

End AggregatorFacts.

(** ** The license section *)

Section LicenseFacts.
Import unicode strings.
Context {U : UnicodeTables}.

Lemma readLicense_firstReadable (dir : Directory) (names : list gostring) :
  readLicense dir names
  = match firstReadable dir names with
    | Some content => utf8_decode content
    | None => []
    end.
Proof.
  induction names as [|name names IH]; [reflexivity|].
  simpl. destruct (ReadFile dir name); [reflexivity | exact IH].
Qed.

(** Bytes decode to at least one rune. *)
Lemma utf8_decode_nonempty (content : list byte) :
  content <> [] -> utf8_decode content <> [].
Proof.
  destruct content as [|b0 r0]; [contradiction|]. intros _.
  cbn [utf8_decode].
  repeat match goal with
         | |- context [if ?c then _ else _] => destruct c
         | |- context [match ?l with [] => _ | _ :: _ => _ end] => destruct l
         end; discriminate.
Qed.

Lemma HasPrefix_app (s t prefix : gostring) :
  HasPrefix s prefix = true -> HasPrefix (s ++ t) prefix = true.
Proof.
  revert s; induction prefix as [|p prefix IH]; intros s; [reflexivity|].
  destruct s as [|c s]; [discriminate|]. simpl.
  rewrite !andb_true_iff. intros [E H]. split; [exact E | apply IH, H].
Qed.

Lemma HasSuffix_app (s t suffix : gostring) :
  HasSuffix t suffix = true -> HasSuffix (s ++ t) suffix = true.
Proof.
  unfold HasSuffix. rewrite rev_app_distr. apply HasPrefix_app.
Qed.

Lemma HasSuffix_self (s : gostring) : HasSuffix s s = true.
Proof.
  unfold HasSuffix. induction (rev s) as [|c r IH]; [reflexivity|].
  simpl. rewrite N.eqb_refl. exact IH.
Qed.

(** The section ends with a line feed, whether the content does or
    not. *)
Lemma license_tail_newline (licenseContent : gostring) :
  licenseContent <> [] ->
  HasSuffix (licenseContent
             ++ (if HasSuffix licenseContent newline then [] else newline))
            newline = true.
Proof.
  intros _. destruct (HasSuffix licenseContent newline) eqn:E.
  - rewrite app_nil_r. exact E.
  - apply HasSuffix_app, HasSuffix_self.
Qed.

(** C8 as amended: when the first readable candidate holds at least one
    byte, a report that [ScanDirectory] returns ends with the header
    (an empty line, [License Text:], a line of forty dashes, an empty
    line), the content of the license file, and a line feed if the
    content does not end with one; so the report ends with a line
    feed. *)
Theorem license_section (dir : Directory) (content : list byte)
        (report : gostring) :
  firstReadable dir licenseFiles = Some content ->
  content <> [] ->
  ScanDirectory dir = Ok report ->
  endsWithLicense report (utf8_decode content)
  /\ HasSuffix report newline = true.
Proof.
  intros Hl Hne. unfold ScanDirectory, ScanDirectoryLogged, endsWithLicense.
  rewrite readLicense_firstReadable, Hl.
  remember licenseHeader as header eqn:Eh.
  destruct (walk newAggregator (Walk dir)) as [a|e]; [|discriminate].
  pose proof (utf8_decode_nonempty Hne) as Hd.
  apply eqb_str_neq in Hd. rewrite Hd. cbn [negb].
  rewrite negb_if. intros E. injection E as <-.
  split.
  - exists (resultText a). reflexivity.
  - rewrite app_assoc. apply HasSuffix_app, license_tail_newline.
    apply eqb_str_neq, Hd.
Qed.

End LicenseFacts.

(** ** The scenarios *)

Section Scenarios.
Import unicode strings.
Context {U : UnicodeTables}.

(** C1, as the code has it: two files whose notices differ as text and
    agree in their normal form both reach the report of the directory.
    [ScanDirectory] looks up the raw line in its set, where
    [extractCopyright] looks up the normal form. *)
Theorem ScanDirectory_keeps_equal_keys :
  ScanDirectory acmeTree = Ok (acmeFirst ++ newline ++ acmeSecond ++ newline)
  /\ acmeFirst <> acmeSecond
  /\ normalizeForComparison acmeFirst = normalizeForComparison acmeSecond.
Proof.
  split; [vm_compute; reflexivity|].
  split; [intros H; vm_compute in H; discriminate H | vm_compute; reflexivity].
Qed.

(** Within one file the same two notices, an empty line between them,
    give one line. *)
Example extractCopyright_one_per_key :
  extractCopyright
    (Opened (acmeFirst ++ newline ++ newline ++ acmeSecond ++ newline) None)
  = Ok (acmeFirst ++ newline).
Proof. vm_compute. reflexivity. Qed.

(** C2, as the code has it: [2019], [to], [2021] pass the test for a year
    range, and the key of [2019 to 2021] is [to].  The test for a bare
    year comes first in the loop and takes every field the range test
    could take ([cleanFieldsFrom_filter]). *)
Theorem year_range_separator_survives :
  isYearRange (str "2019") (str "to") (str "2021") = true
  /\ normalizeForComparison (str "2019 to 2021") = str "to".
Proof. split; vm_compute; reflexivity. Qed.

(** With a hyphen the range leaves nothing: the hyphen is punctuation and
    never a field. *)
Example year_range_hyphen :
  normalizeForComparison (str "2019-2021") = [].
Proof. vm_compute. reflexivity. Qed.

(** C3 as amended: the two lines, at the end of the file, before a last
    line feed and before an empty line, give one notice; the hyphen
    between the years is one of the marks [cleanLine] replaces by a
    space. *)
Theorem two_line_notice :
  extractCopyright (Opened twoLines None) = Ok (twoLinesNotice ++ newline)
  /\ extractCopyright (Opened (twoLines ++ newline) None)
     = Ok (twoLinesNotice ++ newline)
  /\ extractCopyright
       (Opened (twoLines ++ newline ++ newline ++ str "package main" ++ newline)
               None)
     = Ok (twoLinesNotice ++ newline).
Proof. repeat split; vm_compute; reflexivity. Qed.

(** The line of the specification's scenario for C5 carries a copyright
    signal and a code signal. *)
Example func_Copyright_line :
  isCopyrightLine (strings.ToLower (str "func Copyright() string {"))
                  (str "func Copyright() string {") = true
  /\ isCodeLine (strings.ToLower (str "func Copyright() string {")) = true.
Proof. split; vm_compute; reflexivity. Qed.

End Scenarios.

(** C3 as stated fails: the notice is not
    [Copyright 2019-2021 Example Inc. All rights reserved.] *)
Lemma two_line_notice_loses_hyphen :
  @extractCopyright unicode.asciiOnly (Opened twoLines None)
  <> Ok (str "Copyright 2019-2021 Example Inc. All rights reserved." ++ newline).
Proof. vm_compute. intros H. discriminate H. Qed.

(** C8 as stated fails: the directory has a readable, empty [LICENSE];
    the report is empty and has no license section. *)
Lemma empty_license_no_section :
  firstReadable emptyLicenseTree licenseFiles = Some []
  /\ @ScanDirectory unicode.asciiOnly emptyLicenseTree = Ok []
  /\ ~ endsWithLicense [] (utf8_decode [])
  /\ strings.HasSuffix [] newline = false.
Proof.
  split; [reflexivity|]. split; [reflexivity|]. split; [|reflexivity].
  intros [notices E]. symmetry in E.
  apply app_eq_nil in E as [_ E]. discriminate E.
Qed.

(** ** The theorems at work *)

(** The ASCII tables meet what C4 asks of the tables. *)
Lemma asciiOnly_ToLower_twice (r : rune) :
  @unicode.ToLower unicode.asciiOnly (@unicode.ToLower unicode.asciiOnly r)
  = @unicode.ToLower unicode.asciiOnly r.
Proof.
  unfold unicode.ToLower, unicode.MaxASCII. simpl unicode.toLowerTable.
  destruct (r <=? 127) eqn:Ea; [|rewrite Ea; reflexivity].
  destruct ((65 <=? r) && (r <=? 90)) eqn:Eu; [|rewrite Ea, Eu; reflexivity].
  apply andb_true_iff in Eu as [Hl Hu].
  apply N.leb_le in Hl, Hu.
  replace (r + 32 <=? 127) with true by (symmetry; apply N.leb_le; lia).
  replace (r + 32 <=? 90) with false by (symmetry; apply N.leb_gt; lia).
  rewrite andb_false_r. reflexivity.
Qed.

(** C4 at work, with the tables restricted to ASCII, on a notice with a
    year range. *)
Lemma normalizeForComparison_idempotent_ascii :
  (forall r, @unicode.ToLower unicode.asciiOnly (@unicode.ToLower unicode.asciiOnly r)
             = @unicode.ToLower unicode.asciiOnly r)
  /\ @normalizeForComparison unicode.asciiOnly
       (@normalizeForComparison unicode.asciiOnly
          (str "Copyright (c) 2019 to 2021 Acme Corp."))
     = @normalizeForComparison unicode.asciiOnly
         (str "Copyright (c) 2019 to 2021 Acme Corp.").
Proof.
  split; [exact asciiOnly_ToLower_twice|].
  apply (@normalizeForComparison_idempotent unicode.asciiOnly
           asciiOnly_ToLower_twice).
Defined.

(** C5 at work: the line [func Copyright() string {] met while a notice
    is being collected. *)
Lemma code_line_discarded_func :
  @isCodeLine
    (@strings.ToLower unicode.asciiOnly
       (strings.TrimSpace (str "func Copyright() string {" ++ newline))) = true
  /\ (@turn unicode.asciiOnly false collectingAcme
        (str "func Copyright() string {" ++ newline)
      = @endOfNotice unicode.asciiOnly collectingAcme
      /\ isCollectingCopyright
           (@turn unicode.asciiOnly false collectingAcme
              (str "func Copyright() string {" ++ newline)) = false
      /\ (currentCopyright
            (@turn unicode.asciiOnly false collectingAcme
               (str "func Copyright() string {" ++ newline))
          = currentCopyright collectingAcme
          \/ currentCopyright
               (@turn unicode.asciiOnly false collectingAcme
                  (str "func Copyright() string {" ++ newline)) = [])).
Proof.
  split; [reflexivity|].
  apply (@code_line_discarded unicode.asciiOnly false collectingAcme
           (str "func Copyright() string {" ++ newline)).
  reflexivity.
Defined.

(** C9 at work: the file of no bytes. *)
Lemma empty_file_is_text_witness :
  openAndRead (Opened [] None) 512 = Ok []
  /\ (isTextFile (Opened [] None) = true
      /\ @extractCopyright unicode.asciiOnly (Opened [] None) = Ok []).
Proof.
  split; [reflexivity|].
  apply (@empty_file_is_text unicode.asciiOnly (Opened [] None)). reflexivity.
Defined.

(** C8 at work: a [LICENSE] that holds [MIT License...]. *)
Lemma license_section_MIT :
  firstReadable mitTree licenseFiles = Some mitLicense
  /\ mitLicense <> []
  /\ @ScanDirectory unicode.asciiOnly mitTree
     = Ok (licenseHeader ++ mitLicense ++ newline)
  /\ (endsWithLicense (licenseHeader ++ mitLicense ++ newline)
                      (utf8_decode mitLicense)
      /\ strings.HasSuffix (licenseHeader ++ mitLicense ++ newline) newline = true).
Proof.
  split; [reflexivity|]. split; [discriminate|]. split; [vm_compute; reflexivity|].
  apply (@license_section unicode.asciiOnly mitTree mitLicense
           (licenseHeader ++ mitLicense ++ newline)).
  - reflexivity.
  - discriminate.
  - vm_compute. reflexivity.
Defined.

(** C7 at work: a file that passes the classifier on its first 512
    bytes and fails to be read further on. *)
Lemma extraction_error_witness :
  isTextFile faultyFile = true
  /\ @extractCopyright unicode.asciiOnly faultyFile = Err ReadError
  /\ isTextFile (Opened [] None) = true
  /\ @extractCopyright unicode.asciiOnly (Opened [] None) = Ok []
  /\ ((forall a, @walkFn unicode.asciiOnly a (IsFile (str "project/big.txt") faultyFile)
                 = Ok (printError (str "project/big.txt") a))
      /\ @ScanDirectory unicode.asciiOnly
           {| ReadFile := fun _ => None;
              Walk := [IsDir (str "project")]
                      ++ IsFile (str "project/big.txt") faultyFile
                      :: [IsFile (str "project/a.txt") (Opened (acmeFirst ++ newline) None)] |}
         = @ScanDirectory unicode.asciiOnly
             {| ReadFile := fun _ => None;
                Walk := [IsDir (str "project")]
                        ++ IsFile (str "project/big.txt") (Opened [] None)
                        :: [IsFile (str "project/a.txt") (Opened (acmeFirst ++ newline) None)] |}
      /\ @ScanDirectory unicode.asciiOnly
           {| ReadFile := fun _ => None;
              Walk := [IsDir (str "project")]
                      ++ IsFile (str "project/big.txt") faultyFile
                      :: [IsFile (str "project/a.txt") (Opened (acmeFirst ++ newline) None)] |}
         = @ScanDirectory unicode.asciiOnly
             {| ReadFile := fun _ => None;
                Walk := [IsDir (str "project")]
                        ++ [IsFile (str "project/a.txt") (Opened (acmeFirst ++ newline) None)] |}).
Proof.
  split; [vm_compute; reflexivity|]. split; [vm_compute; reflexivity|].
  split; [reflexivity|]. split; [reflexivity|].
  apply (@extraction_error_is_empty_result unicode.asciiOnly (fun _ => None)
           [IsDir (str "project")]
           [IsFile (str "project/a.txt") (Opened (acmeFirst ++ newline) None)]
           (str "project/big.txt") faultyFile (Opened [] None) ReadError).
  - vm_compute. reflexivity.
  - vm_compute. reflexivity.
  - reflexivity.
  - reflexivity.
Defined.

(** * Further properties of the scanner *)

(** ** [cleanLine] *)

Section CleanLineFacts.
Import unicode strings StringFacts CleanerFacts.

(** What one turn of the loop produces: fields joined by single spaces,
    free of the one-rune marks and of double slashes. *)
Lemma cleanOnce_shape (s : gostring) :
  exists ws,
    cleanOnce s = Join ws (str " ")
    /\ Forall isField ws
    /\ (forall c, In c (Join ws (str " ")) -> ~ marker c)
    /\ noSlashPair false (Join ws (str " ")) = true.
Proof.
  exists (Fields (replaced (TrimSpace s))).
  set (ws := Fields (replaced (TrimSpace s))).
  assert (Hf : Forall (fun f => isField f /\ Forall (fun c => ~ marker c) f) ws).
  { apply Fields_fields. intros c Hc _. eapply replaced_no_marker, Hc. }
  split; [reflexivity|]. split; [|split].
  - eapply Forall_impl; [|exact Hf]. intros f [H _]. exact H.
  - intros c Hc. apply In_Join in Hc as [->|[w [Hw Hc]]].
    + unfold marker. intros [E|[E|[E|E]]]; discriminate E.
    + rewrite Forall_forall in Hf. destruct (Hf w Hw) as [_ Hm].
      rewrite Forall_forall in Hm. apply Hm, Hc.
  - apply Join_noSlashPair, fieldsFrom_noSlashPair, replaced_noSlashPair.
Qed.

Lemma prefix_absent (t prefix : gostring) :
  (forall c, In c t -> ~ marker c) -> noSlashPair false t = true ->
  In prefix prefixes -> Contains t prefix = false.
Proof.
  intros Ht Hs Hp. unfold prefixes in Hp. cbn [map In] in Hp.
  destruct Hp as [<-|[<-|[<-|[<-|[<-|[<-|[<-|[<-|[<-|[]]]]]]]]]].
  - eapply noSlashPair_Contains, Hs.
  - apply (@marker_absent t _ 0x2A Ht); [unfold marker; tauto | right; left; reflexivity].
  - apply (@marker_absent t _ 0x2A Ht); [unfold marker; tauto | left; reflexivity].
  - apply (@marker_absent t _ 0x23 Ht); [unfold marker; tauto | left; reflexivity].
  - apply (@marker_absent t _ 0x2A Ht); [unfold marker; tauto | left; reflexivity].
  - apply (@marker_absent t _ 0x2B Ht); [unfold marker; tauto | left; reflexivity].
  - apply (@marker_absent t _ 0x2D Ht); [unfold marker; tauto | left; reflexivity].
  - apply (@marker_absent t _ 0x2D Ht); [unfold marker; tauto | right; right; left; reflexivity].
  - apply (@marker_absent t _ 0x2D Ht); [unfold marker; tauto | left; reflexivity].
Qed.

(** X1: the loop of [cleanLine] always ends, in its first or second
    turn: with two turns or more it breaks, and what it returns is the
    line after one pass of trimming, replacing and re-joining. *)
Theorem cleanLine_loop_ends (turns : nat) (line : gostring) :
  cleanLoop (2 + turns) line = Some (cleanLine line)
  /\ cleanLine line = cleanOnce line.
Proof.
  rewrite cleanLine_eq. split; [apply cleanLoop_converges | reflexivity].
Qed.

(** X2: [cleanLine] is idempotent. *)
Theorem cleanLine_idempotent (line : gostring) :
  cleanLine (cleanLine line) = cleanLine line.
Proof. rewrite !cleanLine_eq. apply cleanOnce_twice. Qed.

(** X3: in what [cleanLine] returns none of the nine marks occurs, there
    is no white space at either end, and the words are separated by
    single spaces. *)
Theorem cleanLine_clean (line : gostring) :
  (forall prefix, In prefix prefixes ->
                  Contains (cleanLine line) prefix = false)
  /\ TrimSpace (cleanLine line) = cleanLine line
  /\ Join (Fields (cleanLine line)) (str " ") = cleanLine line.
Proof.
  rewrite cleanLine_eq.
  destruct (cleanOnce_shape line) as [ws [E [Hf [Hm Hs]]]]. rewrite E.
  split; [|split].
  - intros prefix Hp. apply prefix_absent; assumption.
  - apply TrimSpace_Join, Hf.
  - rewrite Fields_Join by exact Hf. reflexivity.
Qed.

(** A cleaned line holds no line feed, nor any other white space than
    the space. *)
Lemma cleanLine_spaces (line : gostring) (c : rune) :
  In c (cleanLine line) -> IsSpace c = true -> c = 0x20.
Proof.
  rewrite cleanLine_eq.
  destruct (cleanOnce_shape line) as [ws [E [Hf _]]]. rewrite E.
  intros Hc Hsp. apply In_Join in Hc as [->|[w [Hw Hc]]]; [reflexivity|].
  rewrite Forall_forall in Hf. destruct (Hf w Hw) as [_ Hn].
  unfold noSpace in Hn. rewrite Forall_forall in Hn.
  rewrite (Hn c Hc) in Hsp. discriminate.
Qed.

End CleanLineFacts.

(** ** [normalizeForComparison] *)

Section NormalizerMore.
Import unicode strings StringFacts.
Context {U : UnicodeTables}.

Lemma filter_keeps_fields (s : gostring) :
  Forall isField (filter keeps (Fields s)).
Proof.
  apply Forall_forall. intros f Hf. apply filter_In in Hf as [Hf _].
  assert (H : Forall (fun f => isField f /\ Forall (fun _ => True) f) (Fields s)).
  { apply Fields_fields. intros; exact I. }
  rewrite Forall_forall in H. apply (H f Hf).
Qed.

(** X4: the loop of [normalizeForComparison] is a filter: a field is
    kept exactly when it is no prefix word and no bare year, whatever
    stands around it, so that the fields of a list put together are
    treated as they are apart; the look-ahead for a year range never
    skips a field. *)
Theorem normalizer_loop_pointwise (fields more : list gostring) :
  cleanFieldsFrom (fields ++ more)
  = cleanFieldsFrom fields ++ cleanFieldsFrom more
  /\ (forall field, In field (cleanFieldsFrom fields)
                    <-> In field fields /\ isPrefixWord field = false
                        /\ isYear field = false).
Proof.
  rewrite !cleanFieldsFrom_filter. split; [apply filter_app|].
  intros field. rewrite filter_In. unfold keeps.
  rewrite andb_true_iff, !negb_true_iff. reflexivity.
Qed.

(** X5: the fields of a key are the fields the loop kept, in order;
    none of them is a prefix word or a bare year. *)
Theorem key_fields (s : gostring) :
  Fields (normalizeForComparison s)
  = cleanFieldsFrom
      (Fields (Map (fun r => if IsPunct r || IsSymbol r
                             then 0x20 else unicode.ToLower r)
                   (strings.ToLower s)))
  /\ Forall (fun field => isPrefixWord field = false /\ isYear field = false)
            (Fields (normalizeForComparison s)).
Proof.
  rewrite normalizeForComparison_eq, cleanFieldsFrom_filter.
  rewrite Fields_Join by apply filter_keeps_fields.
  split; [reflexivity|].
  apply Forall_forall. intros f Hf. apply filter_In in Hf as [_ Hk].
  unfold keeps in Hk. apply andb_true_iff in Hk.
  rewrite !negb_true_iff in Hk. exact Hk.
Qed.

(** X6: the key does not see case: a text and its lowercase form have
    the same key, given that lowering a lowered rune changes nothing. *)
Theorem key_ignores_case (s : gostring) :
  (forall r, unicode.ToLower (unicode.ToLower r) = unicode.ToLower r) ->
  normalizeForComparison (strings.ToLower s) = normalizeForComparison s.
Proof.
  intros H. rewrite !normalizeForComparison_eq. unfold strings.ToLower, Map.
  rewrite (map_map unicode.ToLower unicode.ToLower).
  rewrite (map_ext _ _ H). reflexivity.
Qed.

(** X7: to the key a punctuation mark or a symbol is a space, wherever
    it stands. *)
Theorem key_punctuation_is_space (before after : gostring) (p : rune) :
  IsPunct (unicode.ToLower p) || IsSymbol (unicode.ToLower p) = true ->
  normalizeForComparison (before ++ p :: after)
  = normalizeForComparison (before ++ 0x20 :: after).
Proof.
  intros H. rewrite !normalizeForComparison_eq, !map_app. cbn [map].
  unfold blankOrLower at 2 5. rewrite H. reflexivity.
Qed.

End NormalizerMore.

(** ** [extractCopyright]: what it writes *)

Section ExtractorInvariants.
Import unicode strings StringFacts.
Context {U : UnicodeTables}.

Lemma seen_In (k : gostring) (seen : list gostring) :
  existsb (eqb_str k) seen = true <-> In k seen.
Proof.
  rewrite existsb_exists. split.
  - intros [k' [Hin E]]. apply eqb_str_eq in E. subst k'. exact Hin.
  - intros H. exists k. split; [exact H | apply eqb_str_refl].
Qed.

Lemma NoDup_snoc (l : list gostring) (k : gostring) :
  NoDup l -> ~ In k l -> NoDup (l ++ [k]).
Proof.
  induction 1 as [|a l Ha Hl IH]; intros Hk; cbn.
  - constructor; [intros [] | constructor].
  - constructor.
    + rewrite in_app_iff. intros [H|[H|[]]]; [exact (Ha H)|].
      apply Hk. left. symmetry. exact H.
    + apply IH. intros H. apply Hk. right. exact H.
Qed.

Lemma written_app (ns ms : list gostring) :
  written (ns ++ ms) = written ns ++ written ms.
Proof. unfold written. rewrite map_app, concat_app. reflexivity. Qed.

Lemma agrees_same (x y : Extractor) (ns : list gostring) :
  copyright y = copyright x -> seenCopyrights y = seenCopyrights x ->
  agrees x ns -> agrees y ns.
Proof. unfold agrees. intros -> ->. exact (fun H => H). Qed.

Lemma emit_agrees (x : Extractor) (ns : list gostring) :
  agrees x ns -> exists ns', agrees (emit x) ns'.
Proof.
  intros [Hc [Hs [Hk Hn]]]. unfold emit.
  destruct (existsb (eqb_str (normalizeForComparison (cleanLine (currentCopyright x))))
                    (seenCopyrights x)) eqn:E.
  - exists ns. repeat split; assumption.
  - exists (ns ++ [cleanLine (currentCopyright x)]). unfold agrees. cbn.
    split; [|split; [|split]].
    + rewrite Hc, written_app. unfold written at 2. cbn.
      rewrite app_nil_r. reflexivity.
    + rewrite Hs, map_app, rev_app_distr. reflexivity.
    + rewrite map_app. cbn. apply NoDup_snoc; [exact Hk|].
      intros Hin. apply in_rev in Hin. rewrite <- Hs in Hin.
      apply seen_In in Hin. congruence.
    + apply Forall_app. split; [exact Hn|].
      constructor; [|constructor].
      rewrite !CleanerFacts.cleanLine_eq. apply CleanerFacts.cleanOnce_twice.
Qed.

Lemma endOfNotice_agrees (x : Extractor) (ns : list gostring) :
  agrees x ns -> exists ns', agrees (endOfNotice x) ns'.
Proof.
  intros H. unfold endOfNotice.
  destruct (isCollectingCopyright x); [|exists ns; exact H].
  destruct (0 <? len (currentCopyright x))%nat.
  - destruct (emit_agrees H) as [ns' H']. exists ns'.
    eapply agrees_same; [| |exact H']; reflexivity.
  - exists ns. eapply agrees_same; [| |exact H]; reflexivity.
Qed.

Lemma turn_agrees (atEOF : bool) (x : Extractor) (line : gostring)
      (ns : list gostring) :
  agrees x ns -> exists ns', agrees (turn atEOF x line) ns'.
Proof.
  intros H. unfold turn.
  destruct (eqb_str (TrimSpace line) []); [apply (endOfNotice_agrees H)|].
  destruct (isCodeLine (strings.ToLower (TrimSpace line)));
    [apply (endOfNotice_agrees H)|].
  set (x' := if isCopyrightLine _ _ then _ else _).
  assert (H' : agrees x' ns).
  { unfold x'. destruct (isCopyrightLine _ _);
      [|destruct (isCollectingCopyright x)];
      (eapply agrees_same; [| |exact H]; reflexivity). }
  destruct atEOF; [|exists ns; exact H'].
  destruct (isCollectingCopyright x' && (0 <? len (currentCopyright x'))%nat);
    [apply (emit_agrees H') | exists ns; exact H'].
Qed.

Lemma turns_agree (lines : list gostring) :
  forall x ns, agrees x ns ->
               exists ns', agrees (fold_left (turn false) lines x) ns'.
Proof.
  induction lines as [|line lines IH]; intros x ns H; [exists ns; exact H|].
  destruct (turn_agrees false line H) as [ns' H']. apply (IH _ _ H').
Qed.

Lemma extractText_agrees (text : gostring) :
  exists ns,
    extractText text = written ns
    /\ NoDup (map normalizeForComparison ns)
    /\ Forall (fun n => cleanLine n = n) ns.
Proof.
  unfold extractText. destruct (readStrings text) as [lines last].
  assert (H0 : agrees newExtractor []).
  { repeat split; try constructor. }
  destruct (turns_agree lines H0) as [ns1 H1].
  destruct (turn_agrees true last H1) as [ns [Hc [_ [Hk Hn]]]].
  exists ns. repeat split; assumption.
Qed.

Lemma Split_line (n rest : gostring) :
  ~ In 0x0A n -> Split (n ++ 0x0A :: rest) 0x0A = n :: Split rest 0x0A.
Proof.
  induction n as [|c n IH]; intros Hn; [reflexivity|].
  cbn. destruct (c =? 10) eqn:E.
  - apply N.eqb_eq in E. exfalso. apply Hn. left. exact E.
  - rewrite IH by (intros Hin; apply Hn; right; exact Hin). reflexivity.
Qed.

(** The lines of what was written are the notices, and an empty piece
    after the last line feed. *)
Lemma Split_written (ns : list gostring) :
  Forall (fun n => ~ In 0x0A n) ns ->
  Split (written ns) 0x0A = ns ++ [[]].
Proof.
  induction 1 as [|n ns Hn _ IH]; [reflexivity|].
  unfold written in *. cbn [map List.concat]. rewrite <- app_assoc.
  change (newline ++ ?x) with (0x0A :: x).
  rewrite Split_line by exact Hn. rewrite IH. reflexivity.
Qed.

Lemma clean_no_newline (n : gostring) :
  cleanLine n = n -> ~ In 0x0A n.
Proof.
  intros E Hin. rewrite <- E in Hin.
  pose proof (@cleanLine_spaces n 0x0A Hin eq_refl) as H. discriminate H.
Qed.

(** X8: what [extractCopyright] returns for a file is a sequence of
    lines, each a cleaned notice, no two of them with the same
    normalised key; splitting it at the line feeds gives these notices
    back. *)
Theorem extractCopyright_one_per_key_always (path : File) (out : gostring) :
  extractCopyright path = Ok out ->
  exists notices,
    out = written notices
    /\ NoDup (map normalizeForComparison notices)
    /\ Forall (fun n => cleanLine n = n) notices
    /\ Split out 0x0A = notices ++ [[]].
Proof.
  destruct path as [|data fault]; [discriminate|]. cbn.
  destruct (reaches fault (List.length data)); [discriminate|].
  intros E. injection E as <-.
  destruct (extractText_agrees (utf8_decode data)) as [ns [Ho [Hk Hn]]].
  exists ns. rewrite Ho. repeat split; try assumption.
  apply Split_written. eapply Forall_impl; [|exact Hn].
  intros n. apply clean_no_newline.
Qed.

End ExtractorInvariants.

(** ** [extractCopyright]: what it never writes *)

Section NoSignal.
Import unicode strings.
Context {U : UnicodeTables}.

Lemma Contains_app_r (a s p : gostring) :
  Contains s p = true -> Contains (a ++ s) p = true.
Proof.
  intros H. induction a as [|c a IH]; [exact H|].
  cbn [app Contains]. rewrite IH. apply orb_true_r.
Qed.

Lemma Contains_app_l (s b p : gostring) :
  Contains s p = true -> Contains (s ++ b) p = true.
Proof.
  induction s as [|c s IH]; cbn [app Contains]; rewrite orb_true_iff.
  - intros [H|H]; [|discriminate].
    destruct p; [|discriminate]. destruct b; reflexivity.
  - intros [H|H].
    + pose proof (HasPrefix_app (c :: s) b p H) as Hp. cbn [app] in Hp.
      rewrite Hp. reflexivity.
    + rewrite (IH H). apply orb_true_r.
Qed.

Lemma Contains_infix (a s b p : gostring) :
  Contains s p = true -> Contains (a ++ s ++ b) p = true.
Proof. intros H. apply Contains_app_r, Contains_app_l, H. Qed.

Lemma readStrings_concat (text : gostring) :
  List.concat (fst (readStrings text)) ++ snd (readStrings text) = text.
Proof.
  induction text as [|c text IH]; [reflexivity|].
  cbn [readStrings]. destruct (readStrings text) as [lines last].
  cbn [fst snd] in IH. destruct (c =? 10).
  - cbn. rewrite IH. reflexivity.
  - destruct lines as [|l lines]; cbn in *; rewrite <- IH; reflexivity.
Qed.

(** Every piece [ReadString] delivers is a piece of the text. *)
Lemma readStrings_infix (text line : gostring) :
  In line (fst (readStrings text) ++ [snd (readStrings text)]) ->
  exists a b, text = a ++ line ++ b.
Proof.
  pose proof (readStrings_concat text) as Hc.
  destruct (readStrings text) as [lines last]. cbn [fst snd] in *.
  rewrite in_app_iff. intros [H|[<-|[]]].
  - apply in_split in H as [l1 [l2 ->]].
    exists (List.concat l1), (List.concat l2 ++ last).
    rewrite <- Hc, concat_app. cbn. rewrite <- !app_assoc. reflexivity.
  - exists (List.concat lines), []. rewrite app_nil_r. symmetry. exact Hc.
Qed.

Lemma trimLeft_suffix (s : gostring) : exists a, s = a ++ trimLeft s.
Proof.
  induction s as [|c s [a IH]]; [exists []; reflexivity|].
  cbn. destruct (IsSpace c); [|exists []; reflexivity].
  exists (c :: a). cbn. rewrite <- IH. reflexivity.
Qed.

Lemma TrimSpace_infix (s : gostring) :
  exists a b, s = a ++ TrimSpace s ++ b.
Proof.
  unfold TrimSpace. destruct (trimLeft_suffix s) as [a Ea].
  destruct (trimLeft_suffix (rev (trimLeft s))) as [c Ec].
  exists a, (rev c). rewrite <- rev_app_distr, <- Ec, rev_involutive.
  exact Ea.
Qed.

(** A signal in a line, trimmed and lowercased, is a signal in the text,
    lowercased. *)
Lemma line_signal (text line w : gostring) :
  In line (fst (readStrings text) ++ [snd (readStrings text)]) ->
  Contains (strings.ToLower (TrimSpace line)) w = true ->
  Contains (strings.ToLower text) w = true.
Proof.
  intros Hl Hw. apply readStrings_infix in Hl as [a [b ->]].
  destruct (TrimSpace_infix line) as [a' [b' E]]. rewrite E at 1.
  unfold strings.ToLower, Map in *. rewrite !map_app.
  apply Contains_app_r. rewrite <- app_assoc. apply Contains_app_r.
  rewrite <- app_assoc. apply Contains_app_l, Hw.
Qed.

Lemma turn_no_signal (atEOF : bool) (line : gostring) :
  isCopyrightLine (strings.ToLower (TrimSpace line)) (TrimSpace line) = false ->
  turn atEOF newExtractor line = newExtractor.
Proof.
  intros H. unfold turn.
  destruct (eqb_str (TrimSpace line) []); [reflexivity|].
  destruct (isCodeLine _); [reflexivity|].
  rewrite H. cbn. destruct atEOF; reflexivity.
Qed.

Lemma turns_no_signal (lines : list gostring) :
  Forall (fun line => isCopyrightLine (strings.ToLower (TrimSpace line))
                                      (TrimSpace line) = false) lines ->
  fold_left (turn false) lines newExtractor = newExtractor.
Proof.
  induction 1 as [|line lines H _ IH]; [reflexivity|].
  cbn. rewrite (turn_no_signal false line H). exact IH.
Qed.

(** X9: a file in whose text, lowercased, there is no [copyright], no
    copyright sign and no [(c)] gives no notice: [extractCopyright]
    returns the empty string. *)
Theorem no_signal_no_notice (data : list byte) :
  Contains (strings.ToLower (utf8_decode data)) (str "copyright") = false ->
  Contains (strings.ToLower (utf8_decode data)) copyrightSign = false ->
  Contains (strings.ToLower (utf8_decode data)) (str "(c)") = false ->
  extractCopyright (Opened data None) = Ok [].
Proof.
  intros H1 H2 H3. cbn. f_equal. unfold extractText.
  set (text := utf8_decode data) in *.
  assert (H : forall line,
             In line (fst (readStrings text) ++ [snd (readStrings text)]) ->
             isCopyrightLine (strings.ToLower (TrimSpace line)) (TrimSpace line)
             = false).
  { intros line Hl. unfold isCopyrightLine.
    assert (Hno : forall w, Contains (strings.ToLower text) w = false ->
                            Contains (strings.ToLower (TrimSpace line)) w = false).
    { intros w Hw. destruct (Contains (strings.ToLower (TrimSpace line)) w) eqn:E;
        [|reflexivity].
      rewrite (line_signal text line w Hl E) in Hw. discriminate. }
    rewrite (Hno _ H1), (Hno _ H2), (Hno _ H3). cbn [orb].
    destruct (Contains (TrimSpace line) (str "(C)")) eqn:E; [|reflexivity].
    apply lowercase_has_c in E. rewrite (Hno _ H3) in E. discriminate. }
  destruct (readStrings text) as [lines last]. cbn [fst snd] in H.
  rewrite turns_no_signal.
  - rewrite turn_no_signal; [reflexivity|].
    apply H. apply in_or_app. right. left. reflexivity.
  - apply Forall_forall. intros line Hl. apply H, in_or_app. left. exact Hl.
Qed.

End NoSignal.

(** ** [ScanDirectory]: the lines of a report *)

Section ReportLines.
Import unicode strings.
Context {U : UnicodeTables}.

Lemma Split_pieces (sep : rune) (s : gostring) :
  Forall (fun piece => ~ In sep piece) (Split s sep).
Proof.
  induction s as [|c s IH]; [constructor; [intros [] | constructor]|].
  cbn. destruct (c =? sep) eqn:E.
  - constructor; [intros [] | exact IH].
  - destruct (Split s sep) as [|piece rest].
    + constructor; [|constructor]. intros [H|[]].
      apply N.eqb_neq in E. congruence.
    + inversion IH as [|? ? Hp Hr]; subst. constructor; [|exact Hr].
      intros [H|H]; [apply N.eqb_neq in E; congruence | exact (Hp H)].
Qed.

Lemma addNotice_seen (a : Aggregator) (c l : gostring) :
  In l (seenInTree (addNotice a c))
  <-> In l (seenInTree a) \/ (l = c /\ c <> []).
Proof.
  unfold addNotice. destruct (eqb_str c []) eqn:Ee; cbn [negb andb].
  - apply eqb_str_eq in Ee. split; [auto | intros [H|[_ H]]; [exact H | contradiction]].
  - apply eqb_str_neq in Ee.
    destruct (existsb (eqb_str c) (seenInTree a)) eqn:Es; cbn [negb].
    + apply seen_In in Es. split; [auto|].
      intros [H|[-> _]]; assumption.
    + cbn. split.
      * intros [<-|H]; [right; split; [reflexivity | exact Ee] | left; exact H].
      * intros [H|[-> _]]; [right; exact H | left; reflexivity].
Qed.

Lemma addNotice_tidy (a : Aggregator) (c : gostring) :
  ~ In 0x0A c -> tidy a -> tidy (addNotice a c).
Proof.
  intros Hc [Ht [Hn Hf]]. unfold addNotice.
  destruct (eqb_str c []) eqn:Ee; cbn [negb andb]; [repeat split; assumption|].
  destruct (existsb (eqb_str c) (seenInTree a)) eqn:Es; cbn [negb];
    [repeat split; assumption|].
  apply eqb_str_neq in Ee.
  assert (Hnot : ~ In c (seenInTree a)).
  { intros H. apply seen_In in H. congruence. }
  unfold tidy. cbn [resultText seenInTree]. split; [|split].
  - change (rev (c :: seenInTree a)) with (rev (seenInTree a) ++ [c]).
    rewrite written_app, <- Ht. unfold written. cbn.
    rewrite app_nil_r. reflexivity.
  - constructor; assumption.
  - constructor; [split; assumption | exact Hf].
Qed.

Lemma addNotices_seen (cs : list gostring) :
  forall a l,
    In l (seenInTree (fold_left addNotice cs a))
    <-> In l (seenInTree a) \/ (In l cs /\ l <> []).
Proof.
  induction cs as [|c cs IH]; intros a l; cbn.
  - split; [auto | intros [H|[[] _]]; exact H].
  - rewrite IH, addNotice_seen. split.
    + intros [[H|[-> H]]|[H1 H2]]; auto.
    + intros [H|[[<-|H1] H2]]; auto.
Qed.

Lemma addNotices_tidy (cs : list gostring) :
  Forall (fun c => ~ In 0x0A c) cs ->
  forall a, tidy a -> tidy (fold_left addNotice cs a).
Proof.
  induction 1 as [|c cs Hc _ IH]; intros a Ha; [exact Ha|].
  cbn. apply IH, addNotice_tidy; assumption.
Qed.

Lemma walkFn_tidy (a a' : Aggregator) (entry : WalkEntry) :
  walkFn a entry = Ok a' -> tidy a -> tidy a'.
Proof.
  destruct entry as [path|path|path file]; cbn; [discriminate|congruence|].
  destruct (negb (isTextFile file)); [congruence|].
  destruct (extractCopyright file) as [out|e].
  - destruct (negb (eqb_str out [])); [|congruence].
    intros E Ha. injection E as <-. apply addNotices_tidy; [apply Split_pieces | exact Ha].
  - intros E Ha. injection E as <-. exact Ha.
Qed.

Lemma offers_cons (entry : WalkEntry) (entries : list WalkEntry) (l : gostring) :
  offers (entry :: entries) l <-> offers [entry] l \/ offers entries l.
Proof.
  unfold offers. split.
  - intros [Hl [path [file [out [[->|Hin] H]]]]].
    + left. split; [exact Hl|]. exists path, file, out. split; [left; reflexivity | exact H].
    + right. split; [exact Hl|]. exists path, file, out. split; assumption.
  - intros [[Hl [path [file [out [[->|[]] H]]]]]|[Hl [path [file [out [Hin H]]]]]];
      (split; [exact Hl|]); exists path, file, out.
    + split; [left; reflexivity | exact H].
    + split; [right; exact Hin | exact H].
Qed.

Lemma offers_nil (l : gostring) : ~ offers [] l.
Proof. intros [_ [path [file [out [[] _]]]]]. Qed.

Lemma walkFn_seen (a a' : Aggregator) (entry : WalkEntry) (l : gostring) :
  walkFn a entry = Ok a' ->
  In l (seenInTree a') <-> In l (seenInTree a) \/ offers [entry] l.
Proof.
  assert (Hno : forall path file,
             entry = IsFile path file ->
             (isTextFile file = false \/ (exists e, extractCopyright file = Err e)
              \/ extractCopyright file = Ok []) ->
             ~ offers [entry] l).
  { intros path file -> H [Hl [path' [file' [out [[E|[]] [Ht [He Hin]]]]]]].
    injection E as <- <-.
    destruct H as [H|[[e H]|H]]; try congruence.
    rewrite H in He. injection He as <-. cbn in Hin.
    destruct Hin as [<-|[]]. contradiction. }
  destruct entry as [path|path|path file]; cbn; [discriminate| |].
  - intros E. injection E as <-. split; [auto|].
    intros [H|[_ [p [f [o [[E|[]] _]]]]]]; [exact H | discriminate].
  - destruct (isTextFile file) eqn:Et; cbn [negb].
    + destruct (extractCopyright file) as [out|e] eqn:Ee.
      * destruct (eqb_str out []) eqn:Eo; cbn [negb].
        -- apply eqb_str_eq in Eo. subst out. intros E. injection E as <-.
           split; [auto|]. intros [H|H]; [exact H|].
           exfalso. revert H. apply (Hno path file); auto.
        -- intros E. injection E as <-. rewrite addNotices_seen.
           split; (intros [H|H]; [left; exact H | right]).
           ++ destruct H as [Hin Hl]. split; [exact Hl|].
              exists path, file, out. repeat split; auto. left. reflexivity.
           ++ destruct H as [Hl [p [f [o [[E|[]] [_ [He Hin]]]]]]].
              injection E as <- <-. rewrite Ee in He. injection He as <-.
              split; assumption.
      * intros E. injection E as <-. cbn. split; [auto|].
        intros [H|H]; [exact H|]. exfalso. revert H.
        apply (Hno path file); [reflexivity|]. right. left. exists e. exact Ee.
    + intros E. injection E as <-. split; [auto|].
      intros [H|H]; [exact H|]. exfalso. revert H.
      apply (Hno path file); auto.
Qed.

Lemma walk_tidy (entries : list WalkEntry) :
  forall a a', walk a entries = Ok a' -> tidy a -> tidy a'.
Proof.
  induction entries as [|entry entries IH]; intros a a'; cbn.
  - intros E. injection E as <-. exact (fun H => H).
  - destruct (walkFn a entry) as [a1|e] eqn:E1; [|discriminate].
    intros E Ha. eapply IH; [exact E|]. eapply walkFn_tidy; eassumption.
Qed.

Lemma walk_seen (entries : list WalkEntry) :
  forall a a' l,
    walk a entries = Ok a' ->
    In l (seenInTree a') <-> In l (seenInTree a) \/ offers entries l.
Proof.
  induction entries as [|entry entries IH]; intros a a' l; cbn.
  - intros E. injection E as <-. split; [auto|].
    intros [H|H]; [exact H | destruct (offers_nil H)].
  - destruct (walkFn a entry) as [a1|e] eqn:E1; [|discriminate].
    intros E. rewrite (@IH a1 a' l E), (@walkFn_seen a a1 entry l E1),
      (@offers_cons entry entries l).
    tauto.
Qed.

Lemma ScanDirectory_walk (dir : Directory) (report : gostring) :
  ScanDirectory dir = Ok report ->
  exists a, walk newAggregator (Walk dir) = Ok a
            /\ report = resultText a ++ licenseSection dir.
Proof.
  unfold ScanDirectory, ScanDirectoryLogged, licenseSection.
  remember (readLicense dir licenseFiles) as licenseContent eqn:El.
  remember licenseHeader as header eqn:Eh.
  destruct (walk newAggregator (Walk dir)) as [a|e]; [|discriminate].
  intros E. exists a. split; [reflexivity|].
  destruct (negb (eqb_str licenseContent []));
    injection E as <-; [reflexivity | rewrite app_nil_r; reflexivity].
Qed.

(** X10: a report is a sequence of lines followed by the license
    section.  The lines are exactly the non-empty lines that the text
    files of the walk give through [extractCopyright]; none of them
    occurs twice. *)
Theorem ScanDirectory_lines (dir : Directory) (report : gostring) :
  ScanDirectory dir = Ok report ->
  exists lines,
    report = written lines ++ licenseSection dir
    /\ NoDup lines
    /\ (forall line, In line lines <-> offers (Walk dir) line)
    /\ Forall (fun line => ~ In 0x0A line) lines.
Proof.
  intros H. apply ScanDirectory_walk in H as [a [Hw ->]].
  assert (H0 : tidy newAggregator) by (repeat split; constructor).
  destruct (@walk_tidy _ _ _ Hw H0) as [Ht [Hn Hf]].
  exists (rev (seenInTree a)). rewrite Ht. split; [reflexivity|].
  split; [apply NoDup_rev, Hn|]. split.
  - intros line. rewrite <- in_rev, (@walk_seen _ _ _ line Hw). cbn.
    split; [intros [[]|H]; exact H | auto].
  - apply Forall_rev. eapply Forall_impl; [|exact Hf]. intros l [_ H]. exact H.
Qed.

End ReportLines.

(** ** [ScanDirectory]: the walk *)

Section WalkFacts.
Import unicode strings.
Context {U : UnicodeTables}.

Lemma walkFn_file (a : Aggregator) (path : gostring) (file : File) :
  exists a', walkFn a (IsFile path file) = Ok a'.
Proof.
  cbn. destruct (negb (isTextFile file)); [exists a; reflexivity|].
  destruct (extractCopyright file) as [out|e]; [|eexists; reflexivity].
  destruct (negb (eqb_str out [])); eexists; reflexivity.
Qed.

Lemma walk_Err (entries : list WalkEntry) (e : error) :
  forall a,
    walk a entries = Err e
    <-> e = WalkError /\ exists path, In (Failed path) entries.
Proof.
  induction entries as [|entry entries IH]; intros a; cbn [walk].
  - split; [discriminate | intros [_ [path []]]].
  - destruct entry as [path|path|path file].
    + cbn. split.
      * intros E. injection E as <-. split; [reflexivity|].
        exists path. left. reflexivity.
      * intros [-> _]. reflexivity.
    + cbn [walkFn]. rewrite IH. split; intros [He [p Hp]]; (split; [exact He|]);
        exists p; [right; exact Hp | destruct Hp as [E|Hp]; [discriminate | exact Hp]].
    + destruct (walkFn_file a path file) as [a' ->]. rewrite IH.
      split; intros [He [p Hp]]; (split; [exact He|]);
        exists p; [right; exact Hp | destruct Hp as [E|Hp]; [discriminate | exact Hp]].
Qed.

(** X11: [ScanDirectory] returns an error exactly when the walk meets an
    entry it could not examine; no file, whatever it holds and however
    reading it fails, makes the scan of a directory fail. *)
Theorem ScanDirectory_fails_only_on_walk (dir : Directory) (e : error) :
  ScanDirectory dir = Err e
  <-> e = WalkError /\ exists path, In (Failed path) (Walk dir).
Proof.
  rewrite <- (walk_Err (Walk dir) e newAggregator).
  unfold ScanDirectory, ScanDirectoryLogged.
  destruct (walk newAggregator (Walk dir)) as [a|e'].
  - split; discriminate.
  - split; intros E; injection E as <-; reflexivity.
Qed.

Lemma walk_examined (entries : list WalkEntry) :
  forall a, walk a (filter examined entries) = walk a entries.
Proof.
  induction entries as [|entry entries IH]; intros a; [reflexivity|].
  destruct entry as [path|path|path file]; cbn [filter examined].
  - reflexivity.
  - cbn [walk walkFn]. apply IH.
  - destruct (isTextFile file) eqn:Et.
    + cbn [walk]. destruct (walkFn a (IsFile path file)); [apply IH | reflexivity].
    + cbn [walk walkFn]. rewrite Et. cbn [negb]. apply IH.
Qed.

(** X12: directories and files that [isTextFile] does not take for text
    are passed over: the result of a scan is the result of the scan
    without these entries. *)
Theorem ScanDirectory_skips (dir : Directory) :
  ScanDirectory dir
  = ScanDirectory {| ReadFile := ReadFile dir;
                     Walk := filter examined (Walk dir) |}.
Proof.
  unfold ScanDirectory, ScanDirectoryLogged. cbn [Walk ReadFile].
  rewrite walk_examined.
  replace (readLicense {| ReadFile := ReadFile dir;
                          Walk := filter examined (Walk dir) |} licenseFiles)
    with (readLicense dir licenseFiles); reflexivity.
Qed.

Lemma addNotices_known (cs : list gostring) (a : Aggregator) :
  (forall c, In c cs -> c = [] \/ In c (seenInTree a)) ->
  fold_left addNotice cs a = a.
Proof.
  induction cs as [|c cs IH]; intros H; [reflexivity|].
  cbn. assert (E : addNotice a c = a).
  { unfold addNotice. destruct (H c (or_introl eq_refl)) as [->|Hin]; [reflexivity|].
    apply seen_In in Hin. rewrite Hin, andb_false_r. reflexivity. }
  rewrite E. apply IH. intros c' Hc'. apply H. right. exact Hc'.
Qed.

(** A file whose lines are all in the set changes at most what is
    printed. *)
Lemma walkFn_again (a a' : Aggregator) (path : gostring) (file : File) :
  (forall l, offers [IsFile path file] l -> In l (seenInTree a)) ->
  walkFn a (IsFile path file) = Ok a' -> sameReport a' a.
Proof.
  intros H. cbn. destruct (isTextFile file) eqn:Et; cbn [negb].
  - destruct (extractCopyright file) as [out|e] eqn:Ee.
    + destruct (negb (eqb_str out [])).
      * rewrite addNotices_known; [intros E; injection E as <-; apply sameReport_refl|].
        intros c Hc. destruct (eqb_str c []) eqn:Ec;
          [left; apply eqb_str_eq, Ec | right].
        apply H. split; [apply eqb_str_neq, Ec|].
        exists path, file, out. repeat split; auto. left. reflexivity.
      * intros E. injection E as <-. apply sameReport_refl.
    + intros E. injection E as <-. apply printError_same.
  - intros E. injection E as <-. apply sameReport_refl.
Qed.

(** X13: a file that the walk meets a second time adds nothing to the
    report. *)
Theorem ScanDirectory_same_file_twice
        (readFile : gostring -> option (list byte))
        (before between after : list WalkEntry) (path : gostring) (file : File) :
  ScanDirectory {| ReadFile := readFile;
                   Walk := before ++ IsFile path file :: between
                           ++ IsFile path file :: after |}
  = ScanDirectory {| ReadFile := readFile;
                     Walk := before ++ IsFile path file :: between ++ after |}.
Proof.
  apply ScanDirectory_same.
  rewrite !(walk_app before). destruct (walk newAggregator before) as [a0|e0];
    [|reflexivity].
  cbn [walk]. destruct (walkFn a0 (IsFile path file)) as [a1|e1] eqn:E1;
    [|reflexivity].
  rewrite !(walk_app between). destruct (walk a1 between) as [a2|e2] eqn:E2;
    [|reflexivity].
  cbn [walk]. destruct (walkFn_file a2 path file) as [a3 E3]. rewrite E3.
  apply walk_same. apply (@walkFn_again a2 a3 path file); [|exact E3].
  intros l Hl. apply (@walk_seen _ between a1 a2 l E2). left.
  apply (@walkFn_seen _ a0 a1 (IsFile path file) l E1). right. exact Hl.
Qed.

End WalkFacts.

(** ** [ScanSubDirectories]: the output files *)

Section OutputFiles.
Import unicode strings CleanerFacts.
Context {U : UnicodeTables}.

Lemma extFrom_suffix (before : gostring) :
  forall after,
    exists base, rev before ++ after = base ++ filepath.extFrom before after.
Proof.
  induction before as [|c before IH]; intros after; cbn.
  - exists after. rewrite app_nil_r. reflexivity.
  - rewrite <- app_assoc. cbn. destruct (c =? 47).
    + exists (rev before ++ c :: after). rewrite app_nil_r. reflexivity.
    + destruct (c =? 46); [exists (rev before); reflexivity | apply IH].
Qed.

Lemma Ext_suffix (path : gostring) :
  exists base, path = base ++ filepath.Ext path.
Proof.
  destruct (extFrom_suffix (rev path) []) as [base E].
  rewrite rev_involutive, app_nil_r in E. exists base. exact E.
Qed.

Lemma TrimSuffix_app (base suffix : gostring) :
  TrimSuffix (base ++ suffix) suffix = base.
Proof.
  unfold TrimSuffix. rewrite (HasSuffix_app base suffix suffix (HasSuffix_self suffix)).
  rewrite length_app, Nat.add_sub, firstn_app, Nat.sub_diag, firstn_all.
  cbn. apply app_nil_r.
Qed.

Lemma HasSuffix_snoc (s suffix : gostring) :
  HasSuffix s suffix = true -> exists base, s = base ++ suffix.
Proof.
  unfold HasSuffix. intros H.
  assert (G : forall p t, HasPrefix t p = true -> exists r, t = p ++ r).
  { induction p as [|x p IH]; intros t Ht; [exists t; reflexivity|].
    destruct t as [|c t]; [discriminate|]. cbn in Ht.
    apply andb_true_iff in Ht as [E Ht]. apply N.eqb_eq in E. subst c.
    destruct (IH t Ht) as [r ->]. exists r. reflexivity. }
  destruct (G _ _ H) as [r E]. exists (rev r).
  apply (f_equal (@rev _)) in E. rewrite rev_involutive, rev_app_distr, rev_involutive in E.
  exact E.
Qed.

(** The part of a pattern without [{name}] that comes before the
    inserted name. *)
Lemma outputFileFor_plain (outputPattern : gostring) :
  Contains outputPattern placeholder = false ->
  exists base,
    (forall name', outputFileFor outputPattern name'
                   = base ++ str "_" ++ name' ++ filepath.Ext outputPattern)
    /\ (outputPattern = base ++ filepath.Ext outputPattern
        \/ outputPattern = base ++ str "_" ++ filepath.Ext outputPattern).
Proof.
  intros H. unfold outputFileFor. rewrite H. cbn [negb].
  destruct (Ext_suffix outputPattern) as [stem E].
  set (ext := filepath.Ext outputPattern) in *.
  destruct (HasSuffix stem (str "_")) eqn:Es.
  - destruct (HasSuffix_snoc _ _ Es) as [base Eb].
    exists base. split.
    + intros name'. rewrite (ReplaceAll_absent _ name' _ H). fold ext.
      cbv zeta. rewrite E, TrimSuffix_app, Es.
      rewrite Eb at 1. rewrite TrimSuffix_app. reflexivity.
    + right. rewrite E at 1. rewrite Eb, <- app_assoc. reflexivity.
  - exists stem. split.
    + intros name'. rewrite (ReplaceAll_absent _ name' _ H). fold ext.
      cbv zeta. rewrite E, TrimSuffix_app, Es. reflexivity.
    + left. exact E.
Qed.


End OutputFiles.

Section OutputFilesDistinct.
Import unicode strings CleanerFacts.
Context {U : UnicodeTables}.

(** The length of what [ReplaceAll] gives is linear in the length of the
    replacement, with one replacement at least where the pattern
    occurs. *)
Lemma ReplaceAll_length (old s : gostring) :
  old <> [] ->
  exists rest times,
    (forall new, List.length (ReplaceAll s old new)
                 = (rest + times * List.length new)%nat)
    /\ (Contains s old = true -> (1 <= times)%nat).
Proof.
  intros Hold. unfold ReplaceAll.
  induction s as [|c s IH] using skip_induction.
  - exists 0%nat, 0%nat. split; [reflexivity|].
    destruct old; [contradiction | discriminate].
  - destruct (HasPrefix (c :: s) old) eqn:Ep.
    + destruct (IH (List.length old - 1)%nat) as [rest [times [Hl _]]].
      exists rest, (S times). split; [|intros _; lia].
      intros new. rewrite replaceFrom_cons, Ep, length_app, Hl. lia.
    + destruct (IH 0%nat) as [rest [times [Hl Ht]]].
      exists (S rest), times. split.
      * intros new. rewrite replaceFrom_cons, Ep. cbn. rewrite Hl. reflexivity.
      * cbn [Contains]. rewrite Ep. exact Ht.
Qed.

Lemma app_same_length (a b x y : gostring) :
  List.length a = List.length b -> a ++ x = b ++ y -> a = b.
Proof.
  revert b; induction a as [|c a IH]; intros [|d b] Hl E; try discriminate.
  - reflexivity.
  - cbn in *. injection E as -> E. f_equal. apply IH; [lia | exact E].
Qed.

Lemma ReplaceAll_injective (old s new new' : gostring) :
  old <> [] -> Contains s old = true ->
  ReplaceAll s old new = ReplaceAll s old new' -> new = new'.
Proof.
  intros Hold Hc E.
  assert (Hlen : List.length new = List.length new').
  { destruct (ReplaceAll_length s Hold) as [rest [times [Hl Ht]]].
    apply (f_equal (@List.length _)) in E. rewrite !Hl in E.
    specialize (Ht Hc). nia. }
  revert Hc E. unfold ReplaceAll.
  induction s as [|c s IH] using skip_induction.
  - destruct old; [contradiction | discriminate].
  - rewrite !replaceFrom_cons. cbn [Contains].
    destruct (HasPrefix (c :: s) old).
    + intros _ E. apply (app_same_length _ _ _ _ Hlen E).
    + cbn [orb]. intros Hc E. injection E as E. apply (IH 0%nat Hc E).
Qed.

(** For a pattern with [{name}] too, two names with one output file are
    one name. *)
Lemma outputFileFor_placed (outputPattern name name' : gostring) :
  Contains outputPattern placeholder = true ->
  outputFileFor outputPattern name = outputFileFor outputPattern name' ->
  name = name'.
Proof.
  intros H. unfold outputFileFor. rewrite H. cbn [negb].
  apply ReplaceAll_injective; [discriminate | exact H].
Qed.

(** X15: the output files of two subdirectories are different: for
    every pattern, with [{name}] or without, the name of the
    subdirectory can be read off the name of the output file. *)
Theorem outputFileFor_injective (outputPattern name name' : gostring) :
  outputFileFor outputPattern name = outputFileFor outputPattern name' ->
  name = name'.
Proof.
  destruct (Contains outputPattern placeholder) eqn:H.
  - apply outputFileFor_placed, H.
  - destruct (outputFileFor_plain outputPattern H) as [base [Hf _]].
    rewrite !Hf. intros E.
    apply app_inv_head in E. apply app_inv_head in E.
    apply app_inv_tail in E. exact E.
Qed.

End OutputFilesDistinct.

(** ** [ScanSubDirectories]: the prefix *)

Section PrefixFacts.
Import unicode strings.
Context {U : UnicodeTables}.

Lemma Split_nonempty (s : gostring) (sep : rune) : Split s sep <> [].
Proof.
  destruct s as [|c s]; [discriminate|]. cbn.
  destruct (c =? sep); [discriminate|]. destruct (Split s sep); discriminate.
Qed.

Lemma Join_cons (piece : gostring) (rest : list gostring) (sep : gostring) :
  rest <> [] -> Join (piece :: rest) sep = piece ++ sep ++ Join rest sep.
Proof. destruct rest; [contradiction | reflexivity]. Qed.

(** Joining the lines of a text with line feeds gives the text back. *)
Lemma Join_Split (s : gostring) : Join (Split s 0x0A) newline = s.
Proof.
  induction s as [|c s IH]; [reflexivity|].
  cbn [Split]. pose proof (Split_nonempty s 0x0A) as Hne.
  destruct (c =? 10) eqn:E.
  - apply N.eqb_eq in E. subst c. rewrite Join_cons by exact Hne.
    rewrite IH. reflexivity.
  - destruct (Split s 10) as [|piece rest]; [contradiction|].
    destruct rest as [|piece' rest].
    + cbn in *. rewrite IH. reflexivity.
    + change (Join ((c :: piece) :: piece' :: rest) newline)
        with (c :: Join (piece :: piece' :: rest) newline).
      rewrite IH. reflexivity.
Qed.

Lemma setSoftware_none (lines : list gostring) (name : gostring) :
  Forall (fun line => TrimSpace line <> str "Software:") lines ->
  setSoftware lines name = lines.
Proof.
  induction 1 as [|line lines H _ IH]; [reflexivity|].
  cbn [setSoftware]. apply eqb_str_neq in H. rewrite H, IH. reflexivity.
Qed.

Lemma setSoftware_first (before after : list gostring) (line name : gostring) :
  Forall (fun l => TrimSpace l <> str "Software:") before ->
  TrimSpace line = str "Software:" ->
  setSoftware (before ++ line :: after) name
  = before ++ (str "Software: " ++ name) :: after.
Proof.
  intros Hb Hl. induction Hb as [|l before H _ IH]; cbn [app setSoftware].
  - rewrite Hl, eqb_str_refl. reflexivity.
  - apply eqb_str_neq in H. rewrite H, IH. reflexivity.
Qed.

(** X16: what is put before a report always ends with a line feed; a
    prefix none of whose lines is [Software:] is put there as it is, with
    a line feed added if it has none at its end. *)
Theorem fillPrefix_plain (prefixContent name : gostring) :
  HasSuffix (fillPrefix prefixContent name) newline = true
  /\ (Forall (fun line => TrimSpace line <> str "Software:")
             (Split prefixContent 0x0A) ->
      fillPrefix prefixContent name
      = if HasSuffix prefixContent newline
        then prefixContent else prefixContent ++ newline).
Proof.
  split.
  - unfold fillPrefix. cbv zeta.
    destruct (HasSuffix (Join _ newline) newline) eqn:E; cbn [negb].
    + exact E.
    + apply HasSuffix_app, HasSuffix_self.
  - intros H. unfold fillPrefix. rewrite (@setSoftware_none _ name H), Join_Split.
    destruct (HasSuffix prefixContent newline); reflexivity.
Qed.

(** X17: of the lines of the prefix that are [Software:] once trimmed,
    the first becomes [Software: ] and the name of the subdirectory; the
    lines before and after it stay. *)
Theorem fillPrefix_software (prefixContent name : gostring)
        (before after : list gostring) (line : gostring) :
  Split prefixContent 0x0A = before ++ line :: after ->
  Forall (fun l => TrimSpace l <> str "Software:") before ->
  TrimSpace line = str "Software:" ->
  fillPrefix prefixContent name
  = Join (before ++ (str "Software: " ++ name) :: after) newline
    ++ (if HasSuffix (Join (before ++ (str "Software: " ++ name) :: after)
                           newline) newline
        then [] else newline).
Proof.
  intros Hs Hb Hl.
  unfold fillPrefix. rewrite Hs, (@setSoftware_first before after line name Hb Hl).
  destruct (HasSuffix _ newline); [rewrite app_nil_r|]; reflexivity.
Qed.

End PrefixFacts.

(** ** [ScanSubDirectories]: the batch *)

Section BatchFacts.
Import unicode strings.
Context {U : UnicodeTables}.

Lemma scanEntries_files (outputPattern : gostring) (entries : list DirEntry) :
  forall files0 files err,
    scanEntries outputPattern entries files0 = (files, err) ->
    exists done new,
      files = files0 ++ new
      /\ (exists rest, filter IsDirectory entries = done ++ rest)
      /\ (err = None -> done = filter IsDirectory entries)
      /\ Forall2 (fun entry w => wroteFor outputPattern entry w) done new.
Proof.
  induction entries as [|entry entries IH]; intros files0 files err; cbn [scanEntries].
  - intros E. injection E as <- <-. exists [], [].
    rewrite app_nil_r. repeat split; [exists []; reflexivity | constructor].
  - cbn [filter]. destruct (IsDirectory entry); [|apply IH].
    destruct (ScanDirectory (subDir entry)) as [report|e] eqn:Es.
    + destruct (writable entry).
      * intros E. apply IH in E as [done [new [Hf [[rest Hr] [He HF]]]]].
        exists (entry :: done), ((outputFileFor outputPattern (Name entry),
                                  withPrefix entry report) :: new).
        rewrite Hf, <- app_assoc. split; [reflexivity|].
        split; [exists rest; rewrite Hr; reflexivity|].
        split; [intros H; rewrite (He H); reflexivity|].
        constructor; [|exact HF].
        split; [reflexivity|]. exists report. split; [exact Es | reflexivity].
      * intros E. injection E as <- <-. exists [], [].
        rewrite app_nil_r. repeat split;
          [eexists; reflexivity | discriminate | constructor].
    + intros E. injection E as <- <-. exists [], [].
      rewrite app_nil_r. repeat split;
        [eexists; reflexivity | discriminate | constructor].
Qed.

(** X18: the batch writes one file for each subdirectory it gets
    through, in the order of the entries and for nothing else: the file
    is named after the subdirectory by the pattern and holds the report
    of the subdirectory, after the prefix if there is one.  When the
    batch returns no error these are all the subdirectories of the root;
    when it returns one, the files written before stay written. *)
Theorem ScanSubDirectories_files (entries : list DirEntry)
        (outputPattern : gostring) (files : list (gostring * gostring))
        (err : option batchError) :
  ScanSubDirectories (Some entries) outputPattern = (files, err) ->
  exists done,
    (exists rest, filter IsDirectory entries = done ++ rest)
    /\ (err = None -> done = filter IsDirectory entries)
    /\ Forall2 (fun entry w => wroteFor outputPattern entry w) done files.
Proof.
  intros E. apply scanEntries_files in E as [done [new [-> H]]].
  exists done. exact H.
Qed.

Lemma scanEntries_ok (outputPattern : gostring) (entries : list DirEntry) :
  forall files0,
    snd (scanEntries outputPattern entries files0) = None
    <-> Forall (fun entry =>
                  IsDirectory entry = true ->
                  (exists report, ScanDirectory (subDir entry) = Ok report)
                  /\ writable entry = true) entries.
Proof.
  induction entries as [|entry entries IH]; intros files0; cbn [scanEntries].
  - split; [constructor | reflexivity].
  - destruct (IsDirectory entry) eqn:Ed.
    + destruct (ScanDirectory (subDir entry)) as [report|e] eqn:Es.
      * destruct (writable entry) eqn:Ew.
        -- rewrite IH. split.
           ++ intros H. constructor; [|exact H].
              intros _. split; [exists report; exact Es | exact Ew].
           ++ intros H. inversion H; assumption.
        -- split; [discriminate|]. intros H. inversion H as [|? ? H1 _]; subst.
           destruct (H1 Ed) as [_ Hw]. congruence.
      * split; [discriminate|]. intros H. inversion H as [|? ? H1 _]; subst.
        destruct (H1 Ed) as [[report Hr] _]. congruence.
    + rewrite IH. split.
      * intros H. constructor; [congruence | exact H].
      * intros H. inversion H; assumption.
Qed.

(** X19: the batch returns no error exactly when the root can be
    listed and every subdirectory of it is scanned without error and
    its output file written; entries that are no directories do not
    count. *)
Theorem ScanSubDirectories_ok (rootEntries : option (list DirEntry))
        (outputPattern : gostring) :
  snd (ScanSubDirectories rootEntries outputPattern) = None
  <-> exists entries,
        rootEntries = Some entries
        /\ Forall (fun entry =>
                     IsDirectory entry = true ->
                     (exists report, ScanDirectory (subDir entry) = Ok report)
                     /\ writable entry = true) entries.
Proof.
  destruct rootEntries as [entries|]; cbn [ScanSubDirectories].
  - rewrite scanEntries_ok. split.
    + intros H. exists entries. split; [reflexivity | exact H].
    + intros [entries' [E H]]. injection E as <-. exact H.
  - cbn. split; [discriminate | intros [entries [E _]]; discriminate].
Qed.

End BatchFacts.

(** ** The further properties at work *)

(** X6 at work, with the tables restricted to ASCII. *)
Lemma key_ignores_case_acme :
  (forall r, @unicode.ToLower unicode.asciiOnly (@unicode.ToLower unicode.asciiOnly r)
             = @unicode.ToLower unicode.asciiOnly r)
  /\ @normalizeForComparison unicode.asciiOnly
       (@strings.ToLower unicode.asciiOnly acmeSecond)
     = @normalizeForComparison unicode.asciiOnly acmeSecond.
Proof.
  split; [exact asciiOnly_ToLower_twice|].
  apply (@key_ignores_case unicode.asciiOnly acmeSecond asciiOnly_ToLower_twice).
Defined.

(** X7 at work: a full stop after the name of the holder. *)
Lemma key_punctuation_full_stop :
  @unicode.IsPunct unicode.asciiOnly (@unicode.ToLower unicode.asciiOnly 0x2E)
  || @unicode.IsSymbol unicode.asciiOnly (@unicode.ToLower unicode.asciiOnly 0x2E)
  = true
  /\ @normalizeForComparison unicode.asciiOnly (str "Acme Ltd" ++ 0x2E :: [])
     = @normalizeForComparison unicode.asciiOnly (str "Acme Ltd" ++ 0x20 :: []).
Proof.
  split; [reflexivity|].
  apply (@key_punctuation_is_space unicode.asciiOnly (str "Acme Ltd") [] 0x2E).
  reflexivity.
Defined.

(** X8 at work: a file with two notices of one key. *)
Lemma extractCopyright_one_per_key_acme :
  @extractCopyright unicode.asciiOnly acmeTwice = Ok (acmeFirst ++ newline)
  /\ exists notices,
       acmeFirst ++ newline = written notices
       /\ NoDup (map (@normalizeForComparison unicode.asciiOnly) notices)
       /\ Forall (fun n => cleanLine n = n) notices
       /\ strings.Split (acmeFirst ++ newline) 0x0A = notices ++ [[]].
Proof.
  split; [vm_compute; reflexivity|].
  apply (@extractCopyright_one_per_key_always unicode.asciiOnly acmeTwice
           (acmeFirst ++ newline)).
  vm_compute. reflexivity.
Defined.

(** X9 at work: a source file without a copyright statement. *)
Lemma no_signal_plain_source :
  strings.Contains (@strings.ToLower unicode.asciiOnly (utf8_decode plainSource))
                   (str "copyright") = false
  /\ strings.Contains (@strings.ToLower unicode.asciiOnly (utf8_decode plainSource))
                      copyrightSign = false
  /\ strings.Contains (@strings.ToLower unicode.asciiOnly (utf8_decode plainSource))
                      (str "(c)") = false
  /\ @extractCopyright unicode.asciiOnly (Opened plainSource None) = Ok [].
Proof.
  split; [vm_compute; reflexivity|]. split; [vm_compute; reflexivity|].
  split; [vm_compute; reflexivity|].
  apply (@no_signal_no_notice unicode.asciiOnly plainSource);
    vm_compute; reflexivity.
Defined.

(** X10 at work: the directory of the two notices. *)
Lemma ScanDirectory_lines_acme :
  @ScanDirectory unicode.asciiOnly acmeTree
  = Ok (acmeFirst ++ newline ++ acmeSecond ++ newline)
  /\ exists lines,
       acmeFirst ++ newline ++ acmeSecond ++ newline
       = written lines ++ licenseSection acmeTree
       /\ NoDup lines
       /\ (forall line, In line lines
                        <-> @offers unicode.asciiOnly (Walk acmeTree) line)
       /\ Forall (fun line => ~ In 0x0A line) lines.
Proof.
  split; [vm_compute; reflexivity|].
  apply (@ScanDirectory_lines unicode.asciiOnly acmeTree
           (acmeFirst ++ newline ++ acmeSecond ++ newline)).
  vm_compute. reflexivity.
Defined.


(** X15 at work. *)
Lemma outputFileFor_injective_out :
  outputFileFor (str "out_{name}.txt") (str "a")
  = outputFileFor (str "out_{name}.txt") (str "a")
  /\ str "a" = str "a".
Proof.
  split; [reflexivity|].
  apply (@outputFileFor_injective (str "out_{name}.txt") (str "a") (str "a")).
  reflexivity.
Defined.

(** X17 at work: the prefix with a [Software:] line, for [b]. *)
Lemma fillPrefix_software_b :
  strings.Split softwarePrefix 0x0A
  = [str "Product notice"] ++ str "Software:" :: [str "Version: 1"; []]
  /\ Forall (fun l => strings.TrimSpace l <> str "Software:") [str "Product notice"]
  /\ strings.TrimSpace (str "Software:") = str "Software:"
  /\ fillPrefix softwarePrefix (str "b")
     = strings.Join ([str "Product notice"] ++ (str "Software: " ++ str "b")
                       :: [str "Version: 1"; []]) newline
       ++ (if strings.HasSuffix
                (strings.Join ([str "Product notice"]
                                 ++ (str "Software: " ++ str "b")
                                 :: [str "Version: 1"; []]) newline) newline
           then [] else newline).
Proof.
  assert (H : Forall (fun l => strings.TrimSpace l <> str "Software:")
                     [str "Product notice"]).
  { constructor; [|constructor]. vm_compute. discriminate. }
  split; [reflexivity|]. split; [exact H|]. split; [reflexivity|].
  apply (@fillPrefix_software softwarePrefix (str "b") [str "Product notice"]
           [str "Version: 1"; []] (str "Software:")).
  - reflexivity.
  - exact H.
  - reflexivity.
Defined.

(** X18 at work: the pattern [out_{name}.txt] over a root with a file
    and the subdirectories [a] and [b]. *)
Lemma ScanSubDirectories_files_out :
  @ScanSubDirectories unicode.asciiOnly (Some batchRoot) (str "out_{name}.txt")
  = (batchFiles, None)
  /\ exists done,
       (exists rest, filter IsDirectory batchRoot = done ++ rest)
       /\ (@None batchError = None -> done = filter IsDirectory batchRoot)
       /\ Forall2 (fun entry w =>
                     @wroteFor unicode.asciiOnly (str "out_{name}.txt") entry w)
                  done batchFiles.
Proof.
  split; [vm_compute; reflexivity|].
  apply (@ScanSubDirectories_files unicode.asciiOnly batchRoot
           (str "out_{name}.txt") batchFiles None).
  vm_compute. reflexivity.
Defined.

(** ** What counts as a year *)

Section YearFacts.
Import strconv.

Lemma Atoi_cons (c : rune) (s : gostring) :
  Atoi (c :: s)
  = if (c =? 0x2D) || (c =? 0x2B) then
      match s with
      | [] => None
      | _ => match digitsValue 0 s with
             | None => None
             | Some n =>
               let v := if c =? 0x2D then (- n)%Z else n in
               if ((- 2 ^ 63 <=? v) && (v <=? 2 ^ 63 - 1))%Z then Some v else None
             end
      end
    else
      match digitsValue 0 (c :: s) with
      | None => None
      | Some n => if ((- 2 ^ 63 <=? n) && (n <=? 2 ^ 63 - 1))%Z then Some n else None
      end.
Proof.
  destruct c as [|p]; [reflexivity|].
  do 6 (destruct p as [p|p|]; try reflexivity).
Qed.

Lemma digitsValue_digits (s : gostring) :
  forall acc v, digitsValue acc s = Some v -> forallb isDigit s = true.
Proof.
  induction s as [|c s IH]; intros acc v; cbn; [reflexivity|].
  destruct (isDigit c); [apply IH | discriminate].
Qed.

Lemma digitsValue_bound (s : gostring) :
  forallb isDigit s = true ->
  forall acc, (0 <= acc)%Z ->
    exists v, digitsValue acc s = Some v
              /\ (0 <= v < (acc + 1) * 10 ^ Z.of_nat (List.length s))%Z.
Proof.
  induction s as [|c s IH]; intros Hd acc Ha; cbn [digitsValue forallb] in *.
  - exists acc. split; [reflexivity|]. cbn. lia.
  - apply andb_true_iff in Hd as [Hc Hs]. rewrite Hc.
    assert (Hr : (0 <= Z.of_N c - 48 <= 9)%Z).
    { unfold isDigit in Hc. apply andb_true_iff in Hc as [H1 H2].
      apply N.leb_le in H1, H2. lia. }
    destruct (IH Hs (acc * 10 + (Z.of_N c - 48))%Z ltac:(lia)) as [v [Ev Hv]].
    exists v. split; [exact Ev|].
    cbn [List.length]. rewrite Nat2Z.inj_succ, Z.pow_succ_r by lia.
    split; [lia|]. eapply Z.lt_le_trans; [apply Hv|].
    assert (0 < 10 ^ Z.of_nat (List.length s))%Z by (apply Z.pow_pos_nonneg; lia).
    nia.
Qed.

Lemma digits_len (s : gostring) :
  forallb isDigit s = true -> len s = List.length s.
Proof.
  induction s as [|c s IH]; cbn [forallb len List.length]; [reflexivity|].
  intros H. apply andb_true_iff in H as [Hc Hs]. rewrite (IH Hs).
  unfold isDigit in Hc. apply andb_true_iff in Hc as [_ H2].
  apply N.leb_le in H2. unfold RuneLen.
  replace (c <? 128) with true by (symmetry; apply N.ltb_lt; lia). reflexivity.
Qed.

Lemma short_digits_Atoi (s : gostring) :
  forallb isDigit s = true -> (List.length s <= 4)%nat ->
  exists v, digitsValue 0 s = Some v /\ (0 <= v < 10000)%Z.
Proof.
  intros Hd Hl. destruct (@digitsValue_bound s Hd 0%Z ltac:(lia)) as [v [Ev Hv]].
  exists v. split; [exact Ev|]. split; [lia|].
  eapply Z.lt_le_trans; [apply Hv|].
  change 10000%Z with (1 * 10 ^ 4)%Z. apply Z.mul_le_mono_nonneg_l; [lia|].
  apply Z.pow_le_mono_r; lia.
Qed.

(** X20: the fields dropped as bare years are the strings of four
    decimal digits and, since [strconv.Atoi] takes a sign, the strings of
    a sign and three decimal digits. *)
Theorem isYear_spec (field : gostring) :
  isYear field = true
  <-> (List.length field = 4%nat /\ forallb isDigit field = true)
      \/ (exists sign digits,
             field = sign :: digits /\ (sign = 0x2B \/ sign = 0x2D)
             /\ List.length digits = 3%nat /\ forallb isDigit digits = true).
Proof.
  unfold isYear. rewrite andb_true_iff, Nat.eqb_eq. split.
  - intros [Hl Ha]. destruct field as [|c s]; [discriminate|].
    rewrite Atoi_cons in Ha.
    destruct ((c =? 45) || (c =? 43)) eqn:Es.
    + right. exists c, s.
      assert (Hsign : c = 43 \/ c = 45).
      { apply orb_true_iff in Es as [E|E]; apply N.eqb_eq in E; auto. }
      destruct s as [|d s]; [discriminate|].
      destruct (digitsValue 0 (d :: s)) as [n|] eqn:En; [|discriminate].
      apply digitsValue_digits in En.
      split; [reflexivity|]. split; [exact Hsign|]. split; [|exact En].
      change (len (c :: d :: s)) with (RuneLen c + len (d :: s))%nat in Hl.
      rewrite (digits_len _ En) in Hl.
      assert (RuneLen c = 1%nat) by (destruct Hsign; subst c; reflexivity).
      cbn [List.length] in *. lia.
    + left. destruct (digitsValue 0 (c :: s)) as [n|] eqn:En; [|discriminate].
      apply digitsValue_digits in En. split; [|exact En].
      rewrite <- (digits_len _ En). exact Hl.
  - intros [[Hl Hd]|[sign [digits [-> [Hs [Hl Hd]]]]]].
    + split; [rewrite (digits_len _ Hd); exact Hl|].
      destruct field as [|c s]; [discriminate|]. rewrite Atoi_cons.
      assert (Hc : (c =? 45) || (c =? 43) = false).
      { cbn [forallb] in Hd. apply andb_true_iff in Hd as [Hc _].
        unfold isDigit in Hc. apply andb_true_iff in Hc as [H1 _].
        apply N.leb_le in H1. apply orb_false_iff.
        split; apply N.eqb_neq; lia. }
      rewrite Hc.
      destruct (@short_digits_Atoi (c :: s) Hd ltac:(lia)) as [v [-> Hv]].
      replace ((- 2 ^ 63 <=? v) && (v <=? 2 ^ 63 - 1))%Z with true; [reflexivity|].
      symmetry. apply andb_true_iff. split; apply Z.leb_le; lia.
    + split.
      * cbn [len]. rewrite (digits_len _ Hd), Hl.
        destruct Hs; subst sign; reflexivity.
      * rewrite Atoi_cons.
        replace ((sign =? 45) || (sign =? 43)) with true
          by (destruct Hs; subst sign; reflexivity).
        destruct digits as [|d digits]; [discriminate|].
        destruct (@short_digits_Atoi (d :: digits) Hd ltac:(cbn [List.length] in *; lia)) as [v [-> Hv]].
        cbv zeta. destruct (sign =? 45).
        -- replace ((- 2 ^ 63 <=? - v) && (- v <=? 2 ^ 63 - 1))%Z with true;
             [reflexivity|].
           symmetry. apply andb_true_iff. split; apply Z.leb_le; lia.
        -- replace ((- 2 ^ 63 <=? v) && (v <=? 2 ^ 63 - 1))%Z with true;
             [reflexivity|].
           symmetry. apply andb_true_iff. split; apply Z.leb_le; lia.
Qed.

End YearFacts.
